(** * kkmodbus: the Modbus-TCP codec, the per-address worker and the dispatch
    loop of the two command-line tools, embedded from
    [src/kkmodbus-readwrite.py] and [src/kkmodbus-enum.py].

    Python values are modelled as follows.  An [int] is a [Z]; a [bytes]
    object is a [list byte]; [None]-or-value is an [option]; a raised
    exception is the [Raise] branch of [res]; a [dict] whose iteration order
    the code relies on is an association list in insertion order; the socket
    of one worker, the list the workers append to and the packets put on the
    wire are fields of an explicit state that the worker threads through. *)

From Stdlib Require Import ZArith List Lia Bool String Ascii.
From Stdlib Require Import Strings.Byte DecimalString.
From Stdlib Require Import Permutation.
Import ListNotations.
Open Scope Z_scope.

(** ** The fragment of the Python runtime the tools use *)

Module Py.

(** The exceptions that can occur.  [SystemExit] is what [parser.error]
    raises; it derives from [BaseException] only, so [except Exception] does
    not catch it.  Every other one is a subclass of [Exception]. *)
Inductive exn : Type :=
| OSError            (* socket.error: refused, reset, unreachable, ... *)
| TimeoutError       (* socket.timeout, raised after settimeout(2) expires *)
| StructError        (* struct.error *)
| IndexError
| KeyError
| ValueError
| PyException (msg : string)   (* raise Exception(msg) *)
| SystemExit (msg : string).   (* parser.error(msg) *)

Definition is_Exception (e : exn) : bool :=
  match e with
  | SystemExit _ => false
  | _ => true
  end.

(** The errors the socket calls raise. *)
Definition is_transport_error (e : exn) : bool :=
  match e with
  | OSError | TimeoutError => true
  | _ => false
  end.

Inductive res (A : Type) : Type :=
| Ok (a : A)
| Raise (e : exn).
Arguments Ok {A} a.
Arguments Raise {A} e.

Definition rbind {A B : Type} (c : res A) (k : A -> res B) : res B :=
  match c with
  | Ok a => k a
  | Raise e => Raise e
  end.

Declare Scope res_scope.
Delimit Scope res_scope with res.
Notation "x <- c ;; k" := (rbind c (fun x => k))
  (at level 61, c at next level, right associativity) : res_scope.

(** [bytes]: immutable sequences of integers in [0,255]. *)
Definition bytes : Type := list byte.

Definition byte_val (b : byte) : Z := Z.of_N (Byte.to_N b).

Definition mk_byte (z : Z) : byte :=
  match Byte.of_N (Z.to_N z) with
  | Some b => b
  | None => x00
  end.

Definition of_ints (l : list Z) : bytes := map mk_byte l.

(** [b[i:j]] for [0 <= i] and [0 <= j]: the slice is clipped to the object. *)
Definition slice {A : Type} (l : list A) (i j : nat) : list A :=
  firstn (j - i) (skipn i l).

(** [b[i]] for [0 <= i]: [IndexError] past the end. *)
Definition index {A : Type} (l : list A) (i : nat) : res A :=
  match nth_error l i with
  | Some a => Ok a
  | None => Raise IndexError
  end.

(** Truthiness of a value that is [None] or a [bytes] object. *)
Definition truthy (data : option bytes) : bool :=
  match data with
  | None | Some [] => false
  | Some (_ :: _) => true
  end.

(** *** [struct], big-endian formats *)

Definition in_range (lo hi x : Z) : bool := (lo <=? x) && (x <=? hi).

Definition pack_B (x : Z) : res bytes :=
  if in_range 0 255 x then Ok [mk_byte x] else Raise StructError.

Definition pack_H (x : Z) : res bytes :=
  if in_range 0 65535 x
  then Ok [mk_byte (x / 256); mk_byte (x mod 256)]
  else Raise StructError.

(** [struct.pack('>HHHBBH', a, b, c, d, e, f)] *)
Definition pack_HHHBBH (a b c d e f : Z) : res bytes :=
  (ba <- pack_H a ;; bb <- pack_H b ;; bc <- pack_H c ;;
   bd <- pack_B d ;; be <- pack_B e ;; bf <- pack_H f ;;
   Ok (ba ++ bb ++ bc ++ bd ++ be ++ bf))%res.

Definition unpack_B (b : bytes) : res Z :=
  match b with
  | [x] => Ok (byte_val x)
  | _ => Raise StructError
  end.

Definition unpack_H (b : bytes) : res Z :=
  match b with
  | [h; l] => Ok (byte_val h * 256 + byte_val l)
  | _ => Raise StructError
  end.

(** [struct.unpack('>HHHBB', b)] *)
Definition unpack_HHHBB (b : bytes) : res (Z * Z * Z * Z * Z) :=
  match b with
  | [a1; a0; b1; b0; c1; c0; d; e] =>
      Ok (byte_val a1 * 256 + byte_val a0,
          byte_val b1 * 256 + byte_val b0,
          byte_val c1 * 256 + byte_val c0,
          byte_val d, byte_val e)
  | _ => Raise StructError
  end.

(** [x in [a, b, ...]] on integers. *)
Definition mem (x : Z) (l : list Z) : bool := existsb (Z.eqb x) l.

(** [str(n)] for an integer. *)
Definition str (n : Z) : string := NilZero.string_of_int (Z.to_int n).

(** [range(a, b + 1)] *)
Definition range_incl (a b : Z) : list Z :=
  map (fun i => a + Z.of_nat i) (seq 0 (Z.to_nat (b + 1 - a))).

End Py.
Import Py.

Arguments mem : simpl never.
Arguments byte_val : simpl never.

(** ** The four data types and the two operations

    The source carries them as the strings ['hr'], ['ir'], ['coil'], ['di']
    and ['read'], ['write'].  No other string is ever produced by [main], so
    the branches for other strings ([continue  # Invalid data type], the bare
    [return] in the worker) are unreachable and have no counterpart here. *)

Inductive data_type : Type := hr | ir | coil | di.

Inductive operation : Type := read | write.

Definition data_type_eqb (a b : data_type) : bool :=
  match a, b with
  | hr, hr | ir, ir | coil, coil | di, di => true
  | _, _ => false
  end.

(** [data_type.upper()] *)
Definition upper (dt : data_type) : string :=
  match dt with
  | hr => "HR"
  | ir => "IR"
  | coil => "COIL"
  | di => "DI"
  end.

(** ** One worker: its socket, the shared result list, the wire *)

Inductive sock_state : Type := NoSocket | SockOpen | SockClosed.

Inductive event : Type :=
| EvSocket
| EvConnect
| EvSend (request : bytes)
| EvRecv
| EvClose.

(** What the peer and the network do during one exchange: the result of
    [sock.connect], of [sock.sendall] and of [sock.recv(1024)] (the bytes one
    receive returns, at most 1024 of them), and the identifier of the pool
    thread that runs the worker. *)
Record env : Type := mkEnv {
  thread_ident : Z;
  on_connect : res unit;
  on_sendall : res unit;
  on_recv : res bytes
}.

Record wstate : Type := mkW {
  sock : sock_state;          (* the worker's own socket *)
  trace : list event;         (* socket calls made so far *)
  results : list string       (* the list passed as [results], shared by the batch *)
}.

Definition M (A : Type) : Type := wstate -> res A * wstate.

Definition mret {A : Type} (a : A) : M A := fun s => (Ok a, s).

Definition mbind {A B : Type} (c : M A) (k : A -> M B) : M B :=
  fun s =>
    match c s with
    | (Ok a, s') => k a s'
    | (Raise e, s') => (Raise e, s')
    end.

Declare Scope io_scope.
Delimit Scope io_scope with io.
Notation "x <- c ;; k" := (mbind c (fun x => k))
  (at level 61, c at next level, right associativity) : io_scope.

Definition lift {A : Type} (r : res A) : M A := fun s => (r, s).

(** [try: body  except Exception: pass] *)
Definition try_except_pass (body : M unit) : M unit :=
  fun s =>
    match body s with
    | (Raise e, s') => if is_Exception e then (Ok tt, s') else (Raise e, s')
    | r => r
    end.

Definition log (ev : event) (s : wstate) : wstate :=
  mkW (sock s) (trace s ++ [ev]) (results s).

Definition set_sock (st : sock_state) (s : wstate) : wstate :=
  mkW st (trace s) (results s).

(** [sock = socket.socket(AF_INET, SOCK_STREAM)]; [sock.settimeout(2)] *)
Definition socket_socket : M unit :=
  fun s => (Ok tt, set_sock SockOpen (log EvSocket s)).

Definition sock_connect (e : env) : M unit :=
  fun s => (on_connect e, log EvConnect s).

Definition sock_sendall (e : env) (request : bytes) : M unit :=
  fun s => (on_sendall e, log (EvSend request) s).

Definition sock_recv (e : env) : M bytes :=
  fun s => (on_recv e, log EvRecv s).

Definition sock_close : M unit :=
  fun s => (Ok tt, set_sock SockClosed (log EvClose s)).

(** [results.append(line)] *)
Definition results_append (line : string) : M unit :=
  fun s => (Ok tt, mkW (sock s) (trace s) (results s ++ [line])).

(** The state a worker starts from: no socket yet, the shared list as the
    workers that completed before left it. *)
Definition fresh (tr : list event) (rs : list string) : wstate :=
  mkW NoSocket tr rs.

(** A task handed to the pool: the arguments of one [executor.submit]. *)
Record submission : Type := mkSub {
  s_unit_id : Z;
  s_function_code : Z;
  s_protocol_address : Z;
  s_logical_address : Z;
  s_data_type : data_type;
  s_operation : operation;
  s_value : option Z
}.

(** A [dict] keyed by data type, in insertion order. *)
Definition dict (V : Type) : Type := list (data_type * V).

Fixpoint lookup {V : Type} (d : dict V) (k : data_type) : res V :=
  match d with
  | [] => Raise KeyError
  | (k', v) :: rest => if data_type_eqb k k' then Ok v else lookup rest k
  end.

Definition entry {V : Type} (k : data_type) (o : option V) : dict V :=
  match o with
  | Some v => [(k, v)]
  | None => []
  end.

(** What the process has printed and put on the wire. *)
Record world : Type := mkWorld {
  stdout : list string;
  wire : list event
}.

Definition silent : world := mkWorld [] [].

(** The first exception among the futures' outcomes: what the loop
    [for future in futures: future.result()] re-raises. *)
Fixpoint first_raise (outs : list (res unit)) : option exn :=
  match outs with
  | [] => None
  | Ok _ :: rest => first_raise rest
  | Raise e :: _ => Some e
  end.

Definition nl : string := String (ascii_of_nat 10) EmptyString.

Definition print (line : string) (w : world) : world :=
  mkWorld (stdout w ++ [line]) (wire w).

Definition parser_error {A : Type} (msg : string) : res A := Raise (SystemExit msg).

(** ** The thread pool

    [ThreadPoolExecutor(max_workers=100)] runs the tasks of one slave
    concurrently.  A worker is sequential: it makes its socket calls in its
    own order and appends its line, if any, last.  What the pool does is an
    interleaving of the workers' steps: at each moment one of the tasks the
    pool has a thread for (the first [max_workers] unfinished ones, tasks
    being started in submission order) takes its next step.  Which one is
    the scheduler's choice, given here as a list of picks. *)

Inductive action : Type :=
| Call (ev : event)          (* a socket call of a worker *)
| Append (line : string).    (* its [results.append(line)] *)

Definition max_workers : nat := 100.

(** The [p]-th of the tasks that may run takes its next step: the step
    taken and the tasks as they are left; [None] when fewer than [p + 1]
    tasks may run.  [room] counts the threads still free. *)
Fixpoint select (room p : nat) (queue : list (list action))
  : option (action * list (list action)) :=
  match queue with
  | [] => None
  | [] :: rest =>
      match select room p rest with
      | Some r => Some (fst r, [] :: snd r)
      | None => None
      end
  | (a :: steps) :: rest =>
      match room with
      | O => None
      | S room' =>
          match p with
          | O => Some (a, steps :: rest)
          | S p' =>
              match select room' p' rest with
              | Some r => Some (fst r, (a :: steps) :: snd r)
              | None => None
              end
          end
      end
  end.

(** The steps in the order the scheduler lets them happen; a pick that
    names no runnable task falls on the first one. *)
Fixpoint interleave (fuel : nat) (picks : list nat) (queue : list (list action))
  : list action :=
  match fuel with
  | O => []
  | S fuel' =>
      match select max_workers (hd 0%nat picks) queue with
      | Some r => fst r :: interleave fuel' (tl picks) (snd r)
      | None =>
          match select max_workers 0 queue with
          | Some r => fst r :: interleave fuel' (tl picks) (snd r)
          | None => []
          end
      end
  end.

(** The pool run until every task is done. *)
Definition run_pool (picks : list nat) (queue : list (list action)) : list action :=
  interleave (List.length (List.concat queue)) picks queue.

(** The lines appended, in the order of the appends, and the socket calls,
    in the order they were made. *)
Definition pool_lines (acts : list action) : list string :=
  flat_map (fun a => match a with Append line => [line] | Call _ => [] end) acts.

Definition pool_events (acts : list action) : list event :=
  flat_map (fun a => match a with Call ev => [ev] | Append _ => [] end) acts.

(** [f] on every element and its position, counted from [j]. *)
Fixpoint mapi {A B : Type} (f : nat -> A -> B) (j : nat) (l : list A) : list B :=
  match l with
  | [] => []
  | a :: rest => f j a :: mapi f (S j) rest
  end.

(** ** [kkmodbus-readwrite.py] *)

Module ReadWrite.

Definition build_modbus_request
  (trans_id unit_id function_code address : Z) (value : option Z) (count : Z)
  : res bytes :=
  let protocol_id := 0 in
  match value with
  | Some v =>
      if mem function_code [5; 6] then
        let length := 6 in
        (request <- pack_HHHBBH trans_id protocol_id length unit_id function_code address ;;
         tail <- pack_H v ;;
         Ok (request ++ tail))%res
      else Raise (PyException "Unsupported function code for writing")
  | None =>
      if mem function_code [1; 2; 3; 4] then
        let length := 6 in
        (request <- pack_HHHBBH trans_id protocol_id length unit_id function_code address ;;
         tail <- pack_H count ;;
         Ok (request ++ tail))%res
      else Raise (PyException "Unsupported function code")
  end.

(** The header line of the decoder:
    [struct.unpack('>HHHBB', response[:8])]. *)
Definition response_header (response : bytes) : res (Z * Z * Z * Z * Z) :=
  unpack_HHHBB (slice response 0 8).

Definition parse_modbus_response (response : bytes) : res (option bytes) :=
  if (List.length response <? 8)%nat then Ok None
  else
    (hdr <- response_header response ;;
     let '(trans_id, protocol_id, length, unit_id, function_code) := hdr in
     if 128 <=? function_code then Ok None
     else if mem function_code [1; 2; 3; 4] then
       byte_count <- index response 8 ;;
       let data := slice response 9 (9 + Z.to_nat (byte_val byte_count)) in
       Ok (Some data)
     else if mem function_code [5; 6] then
       Ok (Some (slice response 8 12))
     else Ok None)%res.

Definition value_line (unit_id : Z) (dt : data_type) (logical_address v : Z) : string :=
  ("Slave " ++ str unit_id ++ " - " ++ upper dt ++ "[" ++ str logical_address ++ "]: " ++ str v)%string.

Definition wrote_line (unit_id : Z) (dt : data_type) (logical_address : Z) : string :=
  ("Slave " ++ str unit_id ++ " - Wrote to " ++ upper dt ++ "[" ++ str logical_address ++ "]")%string.

Definition failed_read_line (unit_id : Z) (dt : data_type) (logical_address : Z) : string :=
  ("Slave " ++ str unit_id ++ " - Failed to read " ++ upper dt ++ "[" ++ str logical_address ++ "]")%string.

Definition failed_write_line (unit_id : Z) (dt : data_type) (logical_address : Z) : string :=
  ("Slave " ++ str unit_id ++ " - Failed to write to " ++ upper dt ++ "[" ++ str logical_address ++ "]")%string.

(** The record a worker appends on "no usable data". *)
Definition failed_line (op : operation) : Z -> data_type -> Z -> string :=
  match op with
  | read => failed_read_line
  | write => failed_write_line
  end.

(** What [if data:] lets through: the payload when it is a non-empty
    [bytes], nothing for [None] and for [b'']. *)
Definition payload (data : option bytes) : bytes :=
  match data with
  | Some d => d
  | None => []
  end.

(** [bit = (data[0] & 0x01)] *)
Definition coil_bit (data : bytes) : res Z :=
  (b <- index data 0 ;; Ok (Z.land (byte_val b) 1))%res.

(** The part of the [try] block after [sock.close()]: [if data: ... else: ...]. *)
Definition report (unit_id logical_address : Z) (dt : data_type) (op : operation)
  (data : option bytes) : M unit :=
  (if truthy data then
     match op with
     | read =>
         match dt with
         | hr | ir =>
             if (2 <=? List.length (payload data))%nat then
               reg <- lift (unpack_H (slice (payload data) 0 2)) ;;
               results_append (value_line unit_id dt logical_address reg)
             else mret tt
         | coil | di =>
             bit <- lift (coil_bit (payload data)) ;;
             results_append (value_line unit_id dt logical_address bit)
         end
     | write => results_append (wrote_line unit_id dt logical_address)
     end
   else
     match op with
     | read => results_append (failed_read_line unit_id dt logical_address)
     | write => results_append (failed_write_line unit_id dt logical_address)
     end)%io.

(** The request the worker builds for its operation. *)
Definition request_of (trans_id unit_id function_code protocol_address : Z)
  (op : operation) (value : option Z) : res bytes :=
  match op with
  | read => build_modbus_request trans_id unit_id function_code protocol_address None 1
  | write => build_modbus_request trans_id unit_id function_code protocol_address value 1
  end.

(** The body of the [try] block. *)
Definition exchange (e : env)
  (unit_id function_code protocol_address logical_address : Z)
  (dt : data_type) (op : operation) (value : option Z) : M unit :=
  (_ <- socket_socket ;;
   _ <- sock_connect e ;;
   let trans_id := thread_ident e mod 65535 in
   request <- lift (request_of trans_id unit_id function_code protocol_address op value) ;;
   _ <- sock_sendall e request ;;
   response <- sock_recv e ;;
   data <- lift (parse_modbus_response response) ;;
   _ <- sock_close ;;
   report unit_id logical_address dt op data)%io.

Definition read_or_write_data (e : env)
  (unit_id function_code protocol_address logical_address : Z)
  (dt : data_type) (op : operation) (value : option Z) : M unit :=
  try_except_pass
    (exchange e unit_id function_code protocol_address logical_address dt op value).

(** The worker applied to the arguments of a submission. *)
Definition run_task (e : env) (t : submission) : M unit :=
  read_or_write_data e (s_unit_id t) (s_function_code t) (s_protocol_address t)
    (s_logical_address t) (s_data_type t) (s_operation t) (s_value t).

(** One slave's batch.  A worker touches the shared list only through its
    single [append], so a run of the pool is determined by the order in which
    the workers complete; [run_batch] runs the tasks in the order given, each
    on a socket of its own, and returns every future's outcome. *)
Fixpoint run_batch (work : list (env * submission)) (tr : list event) (rs : list string)
  : list (res unit) * list event * list string :=
  match work with
  | [] => ([], tr, rs)
  | (e, t) :: rest =>
      let '(r, s) := run_task e t (fresh tr rs) in
      let '(outs, tr', rs') := run_batch rest (trace s) (results s) in
      (r :: outs, tr', rs')
  end.

(** *** [main], from the parsed command line on *)

(** The command line after [argparse]: the two mode flags, the slave ids,
    the address list of each of [--hr], [--coil], [--ir], [--di] ([None]
    when the option is absent) and the comma-separated items of [--value],
    each with the integer [int] reads from it ([None] where it raises
    [ValueError]). *)
Record args : Type := mkArgs {
  a_ip : string;
  a_port : Z;
  a_read : bool;
  a_write : bool;
  a_slave_ids : list Z;
  a_hr : option (list Z);
  a_coil : option (list Z);
  a_ir : option (list Z);
  a_di : option (list Z);
  a_value : option (list (option Z))
}.

Definition data_types_of (a : args) : dict (list Z) :=
  entry hr (a_hr a) ++ entry coil (a_coil a) ++ entry ir (a_ir a) ++ entry di (a_di a).

Definition total_addresses (data_types : dict (list Z)) : nat :=
  list_sum (map (fun p => List.length (snd p)) data_types).

(** The inner loop [for _ in addresses:] of the validation. *)
Fixpoint check_values (dt : data_type) (addresses : list Z)
  (value_list : list (option Z)) (value_index : nat) (acc : list Z)
  : res (list Z * nat) :=
  match addresses with
  | [] => Ok (acc, value_index)
  | _ :: rest =>
      (item <- index value_list value_index ;;
       match item with
       | None => Raise ValueError
       | Some val =>
           if data_type_eqb dt coil && negb (mem val [0; 1]) then
             parser_error "Coil values must be 0 or 1"
           else if data_type_eqb dt hr && negb (in_range 0 65535 val) then
             parser_error "Register values must be between 0 and 65535"
           else check_values dt rest value_list (S value_index) (acc ++ [val])
       end)%res
  end.

(** The outer loop [for data_type, addresses in data_types.items():]. *)
Fixpoint map_values (data_types : dict (list Z)) (value_list : list (option Z))
  (value_index : nat) (values : dict (list Z)) : res (dict (list Z)) :=
  match data_types with
  | [] => Ok values
  | (dt, addresses) :: rest =>
      (r <- check_values dt addresses value_list value_index [] ;;
       map_values rest value_list (snd r) (values ++ [(dt, fst r)]))%res
  end.

Definition validate (is_write : bool) (data_types : dict (list Z))
  (value : option (list (option Z))) : res (dict (list Z)) :=
  if is_write then
    match value with
    | None => parser_error "--value is required when --write is specified"
    | Some value_list =>
        if negb (List.length value_list =? total_addresses data_types)%nat then
          parser_error "Number of values does not match number of addresses"
        else map_values data_types value_list 0 []
    end
  else Ok [].

(** The [if]/[elif] chain of the dispatch loop:
    [(base_address, function_code_read, function_code_write)]. *)
Definition type_codes (dt : data_type) : Z * Z * option Z :=
  match dt with
  | hr => (40001, 3, Some 6)
  | ir => (30001, 4, None)
  | coil => (1, 1, Some 5)
  | di => (10001, 2, None)
  end.

(** The value put in the request for the value the user gave. *)
Definition wire_value (dt : data_type) (value : Z) : Z :=
  if data_type_eqb dt coil then (if value =? 1 then 65280 else 0) else value.

(** [for idx, logical_address in enumerate(addresses):] *)
Fixpoint submit_addresses (is_write : bool) (unit_id : Z) (dt : data_type)
  (base_address function_code : Z) (values : dict (list Z)) (idx : nat)
  (addresses : list Z) : res (list submission) :=
  match addresses with
  | [] => Ok []
  | logical_address :: rest =>
      let protocol_address := logical_address - base_address in
      if protocol_address <? 0 then
        submit_addresses is_write unit_id dt base_address function_code values (S idx) rest
      else
        (value <- (if is_write then
                     vs <- lookup values dt ;;
                     v <- index vs idx ;;
                     Ok (Some (wire_value dt v))
                   else Ok None) ;;
         more <- submit_addresses is_write unit_id dt base_address function_code
                   values (S idx) rest ;;
         Ok (mkSub unit_id function_code protocol_address logical_address dt
               (if is_write then write else read) value :: more))%res
  end.

Definition cannot_write (dt : data_type) : string :=
  ("Cannot write to " ++ upper dt)%string.

(** [for data_type, addresses in data_types.items():] for one slave: the
    notices printed and the tasks submitted, in order. *)
Fixpoint submit_types (is_write : bool) (unit_id : Z) (values : dict (list Z))
  (data_types : dict (list Z)) : res (list string * list submission) :=
  match data_types with
  | [] => Ok ([], [])
  | (dt, addresses) :: rest =>
      let '(base_address, function_code_read, function_code_write) := type_codes dt in
      match is_write, function_code_write with
      | true, None =>
          (r <- submit_types is_write unit_id values rest ;;
           Ok (cannot_write dt :: fst r, snd r))%res
      | true, Some fc =>
          (futures <- submit_addresses is_write unit_id dt base_address fc values 0 addresses ;;
           r <- submit_types is_write unit_id values rest ;;
           Ok (fst r, futures ++ snd r))%res
      | false, _ =>
          (futures <- submit_addresses is_write unit_id dt base_address
                        function_code_read values 0 addresses ;;
           r <- submit_types is_write unit_id values rest ;;
           Ok (fst r, futures ++ snd r))%res
      end
  end.

Definition processing_line (a : args) (unit_id : Z) : string :=
  (nl ++ "Processing Slave ID " ++ str unit_id ++ " at " ++ a_ip a ++ ":" ++ str (a_port a))%string.

(** The steps of one worker, in its own order, and what its future holds.
    The worker reads nothing of the shared list and appends after its last
    socket call, so its steps are those of its run on an empty list. *)
Definition steps (e : env) (t : submission) : list action :=
  map Call (trace (snd (run_task e t (fresh [] [])))) ++
  map Append (results (snd (run_task e t (fresh [] [])))).

Definition outcome (e : env) (t : submission) : res unit :=
  fst (run_task e t (fresh [] [])).

(** [for unit_id in slave_ids:].  The tasks of the slave number [batch] are
    run by the pool under the schedule [sched batch]; the task submitted in
    position [j] meets the network [net batch j] on its own connection.
    [main] then waits for every future in submission order and prints the
    slave's list as the appends left it. *)
Fixpoint slaves_loop (net : nat -> nat -> env) (sched : nat -> list nat) (a : args)
  (values : dict (list Z)) (data_types : dict (list Z)) (slave_ids : list Z)
  (batch : nat) (w : world) : res unit * world :=
  match slave_ids with
  | [] => (Ok tt, w)
  | unit_id :: rest =>
      let w1 := print (processing_line a unit_id) w in
      match submit_types (a_write a) unit_id values data_types with
      | Raise e => (Raise e, w1)
      | Ok (notices, futures) =>
          let acts :=
            run_pool (sched batch) (mapi (fun j t => steps (net batch j) t) 0 futures) in
          let outs := mapi (fun j t => outcome (net batch j) t) 0 futures in
          let slave_results := pool_lines acts in
          let w2 := mkWorld (stdout w1 ++ notices) (wire w1 ++ pool_events acts) in
          match first_raise outs with
          | Some e => (Raise e, w2)
          | None =>
              slaves_loop net sched a values data_types rest (S batch)
                (mkWorld (stdout w2 ++ slave_results) (wire w2))
          end
      end
  end.

Definition main (net : nat -> nat -> env) (sched : nat -> list nat) (a : args)
  : res unit * world :=
  if negb (a_read a) && negb (a_write a) then
    (parser_error "Must specify either --read or --write", silent)
  else if a_read a && a_write a then
    (parser_error "Cannot specify both --read and --write", silent)
  else
    let data_types := data_types_of a in
    match data_types with
    | [] => (parser_error "Must specify at least one data type (--hr, --coil, --ir, --di)", silent)
    | _ :: _ =>
        match validate (a_write a) data_types (a_value a) with
        | Raise e => (Raise e, silent)
        | Ok values =>
            match slaves_loop net sched a values data_types (a_slave_ids a) 0 silent with
            | (Ok _, w) => (Ok tt, print (nl ++ "Done.")%string w)
            | r => r
            end
        end
    end.

End ReadWrite.

(** ** [kkmodbus-enum.py] *)

Module Enum.

Definition build_modbus_request
  (trans_id unit_id function_code address : Z) (count : Z) : res bytes :=
  let protocol_id := 0 in
  let length := 6 in
  (request <- pack_HHHBBH trans_id protocol_id length unit_id function_code address ;;
   if mem function_code [1; 2; 3; 4] then
     tail <- pack_H count ;;
     Ok (request ++ tail)
   else Ok request)%res.

Definition parse_modbus_response (response : bytes) : res (option bytes) :=
  if (List.length response <? 9)%nat then Ok None
  else
    (hdr <- unpack_HHHBB (slice response 0 8) ;;
     let '(trans_id, protocol_id, length, unit_id, function_code) := hdr in
     if 128 <=? function_code then Ok None
     else if mem function_code [1; 2; 3; 4] then
       byte_count <- unpack_B (slice response 8 9) ;;
       let data := slice response 9 (9 + Z.to_nat byte_count) in
       Ok (Some data)
     else Ok None)%res.

Definition register_line (unit_id : Z) (dt : data_type) (logical_address reg : Z) : string :=
  ("Slave " ++ str unit_id ++ " - " ++ upper dt ++ "[" ++ str logical_address ++ "]: "
     ++ str reg ++ " (16-bit integer)")%string.

Definition bit_line (unit_id : Z) (dt : data_type) (logical_address bit : Z) : string :=
  ("Slave " ++ str unit_id ++ " - " ++ upper dt ++ "[" ++ str logical_address ++ "]: " ++ str bit)%string.

(** [for byte in data: for i in range(8): bits.append((byte >> i) & 1)] *)
Definition expand_bits (data : bytes) : list Z :=
  flat_map
    (fun byte => map (fun i => Z.land (Z.shiftr (byte_val byte) i) 1) [0; 1; 2; 3; 4; 5; 6; 7])
    data.

Definition payload (data : option bytes) : bytes :=
  match data with
  | Some d => d
  | None => []
  end.

(** [bits[0]] when [bits] is not empty. *)
Definition first_bit (data : bytes) : option Z :=
  match expand_bits data with
  | bit :: _ => Some bit
  | [] => None
  end.

(** The part of the [try] block after [sock.close()]: [if data: ...]. *)
Definition report (unit_id logical_address : Z) (dt : data_type)
  (data : option bytes) : M unit :=
  (if truthy data then
     match dt with
     | hr | ir =>
         if (2 <=? List.length (payload data))%nat then
           reg <- lift (unpack_H (slice (payload data) 0 2)) ;;
           results_append (register_line unit_id dt logical_address reg)
         else mret tt
     | coil | di =>
         match first_bit (payload data) with
         | Some bit => results_append (bit_line unit_id dt logical_address bit)
         | None => mret tt
         end
     end
   else mret tt)%io.

(** The body of the [try] block. *)
Definition exchange (e : env)
  (unit_id function_code protocol_address logical_address : Z) (dt : data_type) : M unit :=
  (_ <- socket_socket ;;
   _ <- sock_connect e ;;
   let trans_id := thread_ident e mod 65535 in
   request <- lift (build_modbus_request trans_id unit_id function_code protocol_address 1) ;;
   _ <- sock_sendall e request ;;
   response <- sock_recv e ;;
   data <- lift (parse_modbus_response response) ;;
   _ <- sock_close ;;
   report unit_id logical_address dt data)%io.

Definition read_data (e : env)
  (unit_id function_code protocol_address logical_address : Z) (dt : data_type) : M unit :=
  try_except_pass (exchange e unit_id function_code protocol_address logical_address dt).

Definition run_task (e : env) (t : submission) : M unit :=
  read_data e (s_unit_id t) (s_function_code t) (s_protocol_address t)
    (s_logical_address t) (s_data_type t).

Fixpoint run_batch (work : list (env * submission)) (tr : list event) (rs : list string)
  : list (res unit) * list event * list string :=
  match work with
  | [] => ([], tr, rs)
  | (e, t) :: rest =>
      let '(r, s) := run_task e t (fresh tr rs) in
      let '(outs, tr', rs') := run_batch rest (trace s) (results s) in
      (r :: outs, tr', rs')
  end.

(** *** [main], from the parsed command line on *)

(** The command line after [argparse]: each of [--hr], [--coil], [--ir],
    [--di] is the pair [(start, end)] that [parse_address_range] returned. *)
Record args : Type := mkArgs {
  a_ip : string;
  a_port : Z;
  a_slave_ids : list Z;
  a_hr : option (Z * Z);
  a_coil : option (Z * Z);
  a_ir : option (Z * Z);
  a_di : option (Z * Z)
}.

Definition data_types_of (a : args) : dict (Z * Z) :=
  match entry hr (a_hr a) ++ entry coil (a_coil a) ++ entry ir (a_ir a) ++ entry di (a_di a) with
  | [] => [(hr, (40001, 40010)); (coil, (1, 10)); (ir, (30001, 30010)); (di, (10001, 10010))]
  | d => d
  end.

(** The [if]/[elif] chain: [(function_code, base_address)]. *)
Definition type_codes (dt : data_type) : Z * Z :=
  match dt with
  | hr => (3, 40001)
  | ir => (4, 30001)
  | coil => (1, 1)
  | di => (2, 10001)
  end.

(** [for logical_address in range(start_address, end_address + 1):] *)
Fixpoint submit_addresses (unit_id : Z) (dt : data_type) (function_code base_address : Z)
  (addresses : list Z) : list submission :=
  match addresses with
  | [] => []
  | logical_address :: rest =>
      let protocol_address := logical_address - base_address in
      if protocol_address <? 0 then
        submit_addresses unit_id dt function_code base_address rest
      else
        mkSub unit_id function_code protocol_address logical_address dt read None
          :: submit_addresses unit_id dt function_code base_address rest
  end.

Fixpoint submit_types (unit_id : Z) (data_types : dict (Z * Z)) : list submission :=
  match data_types with
  | [] => []
  | (dt, (start_address, end_address)) :: rest =>
      let '(function_code, base_address) := type_codes dt in
      submit_addresses unit_id dt function_code base_address
        (range_incl start_address end_address)
      ++ submit_types unit_id rest
  end.

Definition connecting_line (a : args) (unit_id : Z) : string :=
  (nl ++ "Connecting to Slave ID " ++ str unit_id ++ " at " ++ a_ip a ++ ":" ++ str (a_port a))%string.

Definition steps (e : env) (t : submission) : list action :=
  map Call (trace (snd (run_task e t (fresh [] [])))) ++
  map Append (results (snd (run_task e t (fresh [] [])))).

Definition outcome (e : env) (t : submission) : res unit :=
  fst (run_task e t (fresh [] [])).

(** [for unit_id in slave_ids:], the tasks of the slave number [batch] run
    by the pool under the schedule [sched batch], the task submitted in
    position [j] on the network [net batch j]. *)
Fixpoint slaves_loop (net : nat -> nat -> env) (sched : nat -> list nat) (a : args)
  (data_types : dict (Z * Z)) (slave_ids : list Z) (batch : nat) (w : world)
  : res unit * world :=
  match slave_ids with
  | [] => (Ok tt, w)
  | unit_id :: rest =>
      let w1 := print (connecting_line a unit_id) w in
      let futures := submit_types unit_id data_types in
      let acts :=
        run_pool (sched batch) (mapi (fun j t => steps (net batch j) t) 0 futures) in
      let outs := mapi (fun j t => outcome (net batch j) t) 0 futures in
      let slave_results := pool_lines acts in
      let w2 := mkWorld (stdout w1) (wire w1 ++ pool_events acts) in
      match first_raise outs with
      | Some e => (Raise e, w2)
      | None =>
          slaves_loop net sched a data_types rest (S batch)
            (mkWorld (stdout w2 ++ slave_results) (wire w2))
      end
  end.

Definition main (net : nat -> nat -> env) (sched : nat -> list nat) (a : args)
  : res unit * world :=
  match slaves_loop net sched a (data_types_of a) (a_slave_ids a) 0 silent with
  | (Ok _, w) => (Ok tt, print (nl ++ "Done.")%string w)
  | r => r
  end.

End Enum.

(** ** Vocabulary of the statements *)

(** The exchange of [e] breaks on a transport error: [connect] raises one,
    or connects and [sendall] raises one, or both succeed and [recv] raises
    one (a timeout is one of them). *)
Definition transport_fails (e : env) : bool :=
  match on_connect e with
  | Raise x => is_transport_error x
  | Ok _ =>
      match on_sendall e with
      | Raise x => is_transport_error x
      | Ok _ =>
          match on_recv e with
          | Raise x => is_transport_error x
          | Ok _ => false
          end
      end
  end.

(** The same network with [recv] returning [response]. *)
Definition with_recv (e : env) (response : bytes) : env :=
  mkEnv (thread_ident e) (on_connect e) (on_sendall e) (Ok response).

(** The network on which every call succeeds and [recv] returns [response]. *)
Definition answering (ident : Z) (response : bytes) : env :=
  mkEnv ident (Ok tt) (Ok tt) (Ok response).

(** A response of at least 9 bytes with a read function code (1 to 4) and a
    byte-count field of 0. *)
Definition zero_count_read_response (response : bytes) : bool :=
  match nth_error response 7, nth_error response 8 with
  | Some f, Some n => mem (byte_val f) [1; 2; 3; 4] && (byte_val n =? 0)
  | _, _ => false
  end.

(** Big-endian 16-bit unsigned integer of two bytes. *)
Definition be16 (h l : byte) : Z := byte_val h * 256 + byte_val l.

Definition lines_of (x : list (res unit) * list event * list string) : list string :=
  snd x.

Definition outcomes_of (x : list (res unit) * list event * list string) : list (res unit) :=
  fst (fst x).

(** The number of [connect] calls in a trace. *)
Definition connects (evs : list event) : nat :=
  List.length (filter (fun ev => match ev with EvConnect => true | _ => false end) evs).

(** The number of [close] calls in a trace. *)
Definition closes (evs : list event) : nat :=
  List.length (filter (fun ev => match ev with EvClose => true | _ => false end) evs).

(** The call of the exchange at which the network breaks. *)
Inductive stage : Type := AtConnect | AtSendall | AtRecv.

(** The network on which every call before [st] succeeds and the call at
    [st] raises [x]. *)
Definition failing_at (st : stage) (ident : Z) (x : exn) : env :=
  match st with
  | AtConnect => mkEnv ident (Raise x) (Ok tt) (Ok [])
  | AtSendall => mkEnv ident (Ok tt) (Raise x) (Ok [])
  | AtRecv => mkEnv ident (Ok tt) (Ok tt) (Raise x)
  end.

(** The command line of the read/write tool that selects one data type
    for one slave. *)
Definition only (dt k : data_type) (addresses : list Z) : option (list Z) :=
  if data_type_eqb dt k then Some addresses else None.

Definition single_rw (ip : string) (port : Z) (is_write : bool) (unit_id : Z)
  (dt : data_type) (addresses : list Z) (value : option (list (option Z)))
  : ReadWrite.args :=
  ReadWrite.mkArgs ip port (negb is_write) is_write [unit_id]
    (only dt hr addresses) (only dt coil addresses)
    (only dt ir addresses) (only dt di addresses) value.

(** What the validation leaves in [values] for an entry of [data_types]:
    the same key, one value per address, each acceptable for the type. *)
Definition accepted_value (dt : data_type) (v : Z) : Prop :=
  (dt = coil -> v = 0 \/ v = 1) /\ (dt = hr -> 0 <= v <= 65535).

Definition accepted (d v : data_type * list Z) : Prop :=
  fst v = fst d /\ List.length (snd v) = List.length (snd d) /\
  Forall (accepted_value (fst d)) (snd v).

(** *** The mapper as the specification words it *)

Module Spec.

Definition base_address (dt : data_type) : Z :=
  match dt with
  | hr => 40001
  | ir => 30001
  | coil => 1
  | di => 10001
  end.

Definition read_code (dt : data_type) : Z :=
  match dt with
  | hr => 3
  | ir => 4
  | coil => 1
  | di => 2
  end.

Definition write_code (dt : data_type) : option Z :=
  match dt with
  | hr => Some 6
  | coil => Some 5
  | ir | di => None
  end.

Inductive mapped : Type :=
| Mapped (protocol_address function_code : Z)
| AddressBelowBase
| UnsupportedWriteTarget.

(** [map(dataType, logicalAddress, operation)]: the write target is checked
    first, as the caller must check it before enqueueing any work item. *)
Definition map (dt : data_type) (logical_address : Z) (op : operation) : mapped :=
  match op, write_code dt with
  | write, None => UnsupportedWriteTarget
  | write, Some fc =>
      if logical_address - base_address dt <? 0 then AddressBelowBase
      else Mapped (logical_address - base_address dt) fc
  | read, _ =>
      if logical_address - base_address dt <? 0 then AddressBelowBase
      else Mapped (logical_address - base_address dt) (read_code dt)
  end.

(** The values of a write run are acceptable: one integer per selected
    address, 0 or 1 for a coil, within [0,65535] for a holding register. *)
Definition value_ok (dt : data_type) (item : option Z) : bool :=
  match item with
  | None => false
  | Some v =>
      match dt with
      | coil => mem v [0; 1]
      | hr => in_range 0 65535 v
      | ir | di => true
      end
  end.

(** The data type of every selected address, in iteration order. *)
Definition selected_types (data_types : dict (list Z)) : list data_type :=
  flat_map (fun p => List.map (fun _ => fst p) (snd p)) data_types.

Fixpoint all_ok (types : list data_type) (value_list : list (option Z)) : bool :=
  match types, value_list with
  | [], [] => true
  | dt :: types', item :: rest => value_ok dt item && all_ok types' rest
  | _, _ => false
  end.

Definition values_valid (data_types : dict (list Z)) (value_list : list (option Z)) : bool :=
  all_ok (selected_types data_types) value_list.

(** The coil value on the wire. *)
Definition coil_wire (v : Z) : Z := if v =? 1 then 65280 else 0.

End Spec.

(** *** Workers only append

    A computation [appends] when, started with a trace [tr] and a result
    list [rs], it does what it does from empty ones and leaves [tr] and [rs]
    in front: it reads neither and removes nothing. *)
Definition appends {A : Type} (c : M A) : Prop :=
  forall st tr rs,
    c (mkW st tr rs) =
    (fst (c (mkW st [] [])),
     mkW (sock (snd (c (mkW st [] []))))
         (tr ++ trace (snd (c (mkW st [] []))))
         (rs ++ results (snd (c (mkW st [] []))))).

(** What one task, run alone on an empty list, returns, leaves of its
    socket, puts on the wire and appends. *)
Definition rw_outcome (e : env) (t : submission) : res unit :=
  fst (ReadWrite.run_task e t (fresh [] [])).

Definition rw_socket (e : env) (t : submission) : sock_state :=
  sock (snd (ReadWrite.run_task e t (fresh [] []))).

Definition rw_events (e : env) (t : submission) : list event :=
  trace (snd (ReadWrite.run_task e t (fresh [] []))).

Definition rw_lines (e : env) (t : submission) : list string :=
  results (snd (ReadWrite.run_task e t (fresh [] []))).

Definition enum_outcome (e : env) (t : submission) : res unit :=
  fst (Enum.run_task e t (fresh [] [])).

Definition enum_socket (e : env) (t : submission) : sock_state :=
  sock (snd (Enum.run_task e t (fresh [] []))).

Definition enum_events (e : env) (t : submission) : list event :=
  trace (snd (Enum.run_task e t (fresh [] []))).

Definition enum_lines (e : env) (t : submission) : list string :=
  results (snd (Enum.run_task e t (fresh [] []))).

(** ** The command-line parsers

    [parse_address_range] of each tool and the slave-id parsing at the head
    of both [main]s.  A [str] is a [string]; [s.split(sep)] and [c in s] are
    written out for a one-character [sep] and [c].  The builtins [int] and
    [str.strip] are taken as they come: [int] as a function that returns
    [None] where Python raises [ValueError]. *)

Module Cli.

(** The outcome of [parse_address_range]: its [try] turns every
    [ValueError] into [argparse.ArgumentTypeError]. *)
Inductive parsed (A : Type) : Type :=
| Parsed (a : A)
| ArgumentTypeError (msg : string).
Arguments Parsed {A} a.
Arguments ArgumentTypeError {A} msg.

(** [s.split(sep)] *)
Fixpoint split (sep : ascii) (s : string) : list string :=
  match s with
  | EmptyString => [EmptyString]
  | String c rest =>
      if Ascii.eqb c sep then EmptyString :: split sep rest
      else
        match split sep rest with
        | [] => [String c EmptyString]
        | hd :: tl => String c hd :: tl
        end
  end.

(** [c in s] *)
Fixpoint contains (c : ascii) (s : string) : bool :=
  match s with
  | EmptyString => false
  | String c' rest => Ascii.eqb c' c || contains c rest
  end.

Definition dash : ascii := "-"%char.
Definition comma : ascii := ","%char.

Section Builtins.

Variable int : string -> option Z.
Variable strip : string -> string.

(** [a, b = map(int, pieces)]: [None] is the [ValueError] of a piece that is
    not an integer, or of a number of pieces other than two. *)
Definition unpack_two_ints (pieces : list string) : option (Z * Z) :=
  match pieces with
  | [a; b] =>
      match int a, int b with
      | Some x, Some y => Some (x, y)
      | _, _ => None
      end
  | _ => None
  end.

(** [list(map(int, pieces))] *)
Fixpoint ints (pieces : list string) : option (list Z) :=
  match pieces with
  | [] => Some []
  | p :: rest =>
      match int p, ints rest with
      | Some n, Some l => Some (n :: l)
      | _, _ => None
      end
  end.

(** The body of the loop of the read/write tool's [parse_address_range] on
    one part: the addresses it adds, [None] where it raises [ValueError]. *)
Definition part_addresses (part : string) : option (list Z) :=
  let part := strip part in
  if contains dash part then
    match unpack_two_ints (split dash part) with
    | Some (start, end_) =>
        if start >? end_ then None else Some (range_incl start end_)
    | None => None
    end
  else
    match int part with
    | Some n => Some [n]
    | None => None
    end.

Fixpoint parse_parts (parts : list string) (addresses : list Z) : option (list Z) :=
  match parts with
  | [] => Some addresses
  | part :: rest =>
      match part_addresses part with
      | Some l => parse_parts rest (addresses ++ l)
      | None => None
      end
  end.

(** [parse_address_range] of [kkmodbus-readwrite.py] *)
Definition rw_parse_address_range (arg_value : string) : parsed (list Z) :=
  match parse_parts (split comma arg_value) [] with
  | Some addresses => Parsed addresses
  | None => ArgumentTypeError ("Invalid address range '" ++ arg_value ++ "'.")%string
  end.

(** [parse_address_range] of [kkmodbus-enum.py] *)
Definition enum_parse_address_range (arg_value : string) : parsed (Z * Z) :=
  let bounds :=
    if contains dash arg_value then unpack_two_ints (split dash arg_value)
    else
      match int arg_value with
      | Some n => Some (n, n)
      | None => None
      end in
  match bounds with
  | Some (start, end_) =>
      if start >? end_ then
        ArgumentTypeError
          ("Invalid address range '" ++ arg_value ++
           "'. Expected format start-end with start <= end, or a single number.")%string
      else Parsed (start, end_)
  | None =>
      ArgumentTypeError
        ("Invalid address range '" ++ arg_value ++
         "'. Expected format start-end with start <= end, or a single number.")%string
  end.

(** The slave-id parsing of both [main]s; its [ValueError] is not caught. *)
Definition parse_slave_ids (slaveids : string) : res (list Z) :=
  if contains dash slaveids then
    match unpack_two_ints (split dash slaveids) with
    | Some (start_id, end_id) => Ok (range_incl start_id end_id)
    | None => Raise ValueError
    end
  else
    match ints (split comma slaveids) with
    | Some l => Ok l
    | None => Raise ValueError
    end.

End Builtins.

(** A decimal reader to run the parsers on: the digits of a non-negative
    number, nothing else. *)
Definition decimal (s : string) : option Z :=
  match NilZero.uint_of_string s with
  | Some u => Some (Z.of_N (N.of_uint u))
  | None => None
  end.

End Cli.

(** *** More vocabulary *)

Definition only_Exception {A : Type} (r : res A) : bool :=
  match r with
  | Ok _ => true
  | Raise x => is_Exception x
  end.

(** Every exception the network raises is a subclass of [Exception]. *)
Definition well_behaved (e : env) : bool :=
  only_Exception (on_connect e) && only_Exception (on_sendall e) &&
  only_Exception (on_recv e).

(** The twelve bytes of a request. *)
Definition frame12 (trans_id unit_id function_code address last : Z) : bytes :=
  [mk_byte (trans_id / 256); mk_byte (trans_id mod 256); mk_byte 0; mk_byte 0;
   mk_byte 0; mk_byte 6; mk_byte unit_id; mk_byte function_code;
   mk_byte (address / 256); mk_byte (address mod 256);
   mk_byte (last / 256); mk_byte (last mod 256)].

(** The ten bytes the enumeration encoder returns for a function code
    outside 1 to 4. *)
Definition frame10 (trans_id unit_id function_code address : Z) : bytes :=
  [mk_byte (trans_id / 256); mk_byte (trans_id mod 256); mk_byte 0; mk_byte 0;
   mk_byte 0; mk_byte 6; mk_byte unit_id; mk_byte function_code;
   mk_byte (address / 256); mk_byte (address mod 256)].

(** The fields of a task fit the request of the read/write tool. *)
Definition rw_encodable (t : submission) : bool :=
  in_range 0 255 (s_unit_id t) && in_range 0 65535 (s_protocol_address t) &&
  match s_operation t, s_value t with
  | write, Some v => mem (s_function_code t) [5; 6] && in_range 0 65535 v
  | _, _ => mem (s_function_code t) [1; 2; 3; 4]
  end.

(** The fields of a task fit the request of the enumeration tool. *)
Definition enum_encodable (t : submission) : bool :=
  in_range 0 255 (s_unit_id t) && in_range 0 255 (s_function_code t) &&
  in_range 0 65535 (s_protocol_address t).

(** The two bytes that end the request of a task. *)
Definition last_field (t : submission) : Z :=
  match s_operation t, s_value t with
  | write, Some v => v
  | _, _ => 1
  end.

Definition is_send (ev : event) : bool :=
  match ev with
  | EvSend _ => true
  | _ => false
  end.

(** The pool of the slave number [i] on its tasks, and what these tasks
    append and call each on its own, in submission order. *)
Definition rw_pool (net : nat -> nat -> env) (sched : nat -> list nat) (i : nat)
  (tasks : list submission) : list action :=
  run_pool (sched i) (mapi (fun j t => ReadWrite.steps (net i j) t) 0 tasks).

Definition rw_own_lines (net : nat -> nat -> env) (i : nat) (tasks : list submission)
  : list string :=
  List.concat (mapi (fun j t => rw_lines (net i j) t) 0 tasks).

Definition rw_own_events (net : nat -> nat -> env) (i : nat) (tasks : list submission)
  : list event :=
  List.concat (mapi (fun j t => rw_events (net i j) t) 0 tasks).

Definition enum_pool (net : nat -> nat -> env) (sched : nat -> list nat) (i : nat)
  (tasks : list submission) : list action :=
  run_pool (sched i) (mapi (fun j t => Enum.steps (net i j) t) 0 tasks).

Definition enum_own_lines (net : nat -> nat -> env) (i : nat) (tasks : list submission)
  : list string :=
  List.concat (mapi (fun j t => enum_lines (net i j) t) 0 tasks).

Definition enum_own_events (net : nat -> nat -> env) (i : nat) (tasks : list submission)
  : list event :=
  List.concat (mapi (fun j t => enum_events (net i j) t) 0 tasks).

(** The tasks the enumeration tool submits for one slave: one read task
    per address of each range that is at or above the base of its type. *)
Definition enum_tasks (unit_id : Z) (data_types : dict (Z * Z)) : list submission :=
  flat_map
    (fun p =>
       map (fun a => mkSub unit_id (Spec.read_code (fst p)) (a - Spec.base_address (fst p))
                       a (fst p) read None)
         (filter (fun a => Spec.base_address (fst p) <=? a)
            (range_incl (fst (snd p)) (snd (snd p)))))
    data_types.

(** The steps of a list of tasks occur in [acts] task by task in their
    own order: [acts] is one of their interleavings. *)
Inductive interleaving : list (list action) -> list action -> Prop :=
| interleaving_done (queue : list (list action)) :
    List.concat queue = [] -> interleaving queue []
| interleaving_step (before after : list (list action)) (a : action)
    (steps : list action) (acts : list action) :
    interleaving (before ++ steps :: after) acts ->
    interleaving (before ++ (a :: steps) :: after) (a :: acts).

(** The read tasks the read/write tool submits for one slave. *)
Definition rw_read_tasks (unit_id : Z) (data_types : dict (list Z)) : list submission :=
  flat_map
    (fun p =>
       map (fun a => mkSub unit_id (Spec.read_code (fst p)) (a - Spec.base_address (fst p))
                       a (fst p) read None)
         (filter (fun a => Spec.base_address (fst p) <=? a) (snd p)))
    data_types.

(** The write tasks the read/write tool submits for one slave, and the
    notices it prints: one task per address at or above the base of a
    writable type, with the value at the address's own position. *)
Definition rw_write_tasks (unit_id : Z) (values data_types : dict (list Z))
  : list submission :=
  flat_map
    (fun p =>
       match Spec.write_code (fst p), lookup values (fst p) with
       | Some fc, Ok vs =>
           map (fun q => mkSub unit_id fc (fst q - Spec.base_address (fst p)) (fst q)
                           (fst p) write (Some (ReadWrite.wire_value (fst p) (snd q))))
             (filter (fun q => Spec.base_address (fst p) <=? fst q) (combine (snd p) vs))
       | _, _ => []
       end)
    data_types.

Definition rw_write_notices (data_types : dict (list Z)) : list string :=
  flat_map
    (fun p =>
       match Spec.write_code (fst p) with
       | None => [ReadWrite.cannot_write (fst p)]
       | Some _ => []
       end)
    data_types.

(** ** Bytes and [struct] *)

Lemma byte_val_range (b : byte) : 0 <= byte_val b <= 255.
Proof.
  unfold byte_val. pose proof (Byte.to_N_bounded b). lia.
Qed.

Lemma byte_val_mk_byte (z : Z) : 0 <= z <= 255 -> byte_val (mk_byte z) = z.
Proof.
  intros Hz. unfold byte_val, mk_byte.
  destruct (Byte.of_N (Z.to_N z)) as [b|] eqn:E.
  - apply Byte.to_of_N in E. rewrite E. apply Z2N.id. lia.
  - apply Byte.of_N_None_iff in E. lia.
Qed.

Lemma in_range_spec (lo hi x : Z) : in_range lo hi x = true <-> lo <= x <= hi.
Proof.
  unfold in_range. rewrite andb_true_iff, !Z.leb_le. tauto.
Qed.

Lemma be16_split (x : Z) :
  0 <= x <= 65535 -> be16 (mk_byte (x / 256)) (mk_byte (x mod 256)) = x.
Proof.
  intros Hx. unfold be16.
  assert (0 <= x / 256 <= 255).
  { split; [apply Z.div_pos; lia |].
    assert (x / 256 < 256) by (apply Z.div_lt_upper_bound; lia). lia. }
  assert (0 <= x mod 256 <= 255) by (pose proof (Z.mod_pos_bound x 256); lia).
  rewrite !byte_val_mk_byte by assumption.
  pose proof (Z.div_mod x 256). lia.
Qed.

Lemma be16_range (h l : byte) : 0 <= be16 h l <= 65535.
Proof.
  unfold be16. pose proof (byte_val_range h). pose proof (byte_val_range l). lia.
Qed.

Lemma pack_H_inv (x : Z) (bs : bytes) :
  pack_H x = Ok bs ->
  0 <= x <= 65535 /\ bs = [mk_byte (x / 256); mk_byte (x mod 256)].
Proof.
  unfold pack_H. destruct (in_range 0 65535 x) eqn:E; [|discriminate].
  intros H. injection H as <-. apply in_range_spec in E. auto.
Qed.

Lemma pack_H_ok (x : Z) :
  0 <= x <= 65535 -> pack_H x = Ok [mk_byte (x / 256); mk_byte (x mod 256)].
Proof.
  intros H. unfold pack_H. apply in_range_spec in H. now rewrite H.
Qed.

Lemma pack_B_inv (x : Z) (bs : bytes) :
  pack_B x = Ok bs -> 0 <= x <= 255 /\ bs = [mk_byte x].
Proof.
  unfold pack_B. destruct (in_range 0 255 x) eqn:E; [|discriminate].
  intros H. injection H as <-. apply in_range_spec in E. auto.
Qed.

Lemma pack_B_ok (x : Z) : 0 <= x <= 255 -> pack_B x = Ok [mk_byte x].
Proof.
  intros H. unfold pack_B. apply in_range_spec in H. now rewrite H.
Qed.

Lemma unpack_pack_H (x : Z) (bs : bytes) : pack_H x = Ok bs -> unpack_H bs = Ok x.
Proof.
  intros H. apply pack_H_inv in H as [Hx ->]. simpl.
  f_equal. now apply be16_split.
Qed.

Lemma rbind_inv {A B : Type} (c : res A) (k : A -> res B) (b : B) :
  rbind c k = Ok b -> exists a, c = Ok a /\ k a = Ok b.
Proof.
  destruct c as [a|e]; simpl; [eauto | discriminate].
Qed.

Lemma pack_HHHBBH_inv (a b c d e f : Z) (bs : bytes) :
  pack_HHHBBH a b c d e f = Ok bs ->
  (0 <= a <= 65535 /\ 0 <= b <= 65535 /\ 0 <= c <= 65535 /\
   0 <= d <= 255 /\ 0 <= e <= 255 /\ 0 <= f <= 65535) /\
  bs = [mk_byte (a / 256); mk_byte (a mod 256); mk_byte (b / 256); mk_byte (b mod 256);
        mk_byte (c / 256); mk_byte (c mod 256); mk_byte d; mk_byte e;
        mk_byte (f / 256); mk_byte (f mod 256)].
Proof.
  unfold pack_HHHBBH. intros H.
  apply rbind_inv in H as (ba & Ha & H). apply pack_H_inv in Ha as [Ra ->].
  apply rbind_inv in H as (bb & Hb & H). apply pack_H_inv in Hb as [Rb ->].
  apply rbind_inv in H as (bc & Hc & H). apply pack_H_inv in Hc as [Rc ->].
  apply rbind_inv in H as (bd & Hd & H). apply pack_B_inv in Hd as [Rd ->].
  apply rbind_inv in H as (be & He & H). apply pack_B_inv in He as [Re ->].
  apply rbind_inv in H as (bf & Hf & H). apply pack_H_inv in Hf as [Rf ->].
  injection H as <-. simpl. auto 10.
Qed.

Lemma pack_HHHBBH_ok (a b c d e f : Z) :
  0 <= a <= 65535 -> 0 <= b <= 65535 -> 0 <= c <= 65535 ->
  0 <= d <= 255 -> 0 <= e <= 255 -> 0 <= f <= 65535 ->
  pack_HHHBBH a b c d e f =
  Ok [mk_byte (a / 256); mk_byte (a mod 256); mk_byte (b / 256); mk_byte (b mod 256);
      mk_byte (c / 256); mk_byte (c mod 256); mk_byte d; mk_byte e;
      mk_byte (f / 256); mk_byte (f mod 256)].
Proof.
  intros Ha Hb Hc Hd He Hf. unfold pack_HHHBBH.
  rewrite (pack_H_ok a), (pack_H_ok b), (pack_H_ok c), (pack_B_ok d), (pack_B_ok e),
    (pack_H_ok f) by assumption.
  reflexivity.
Qed.

Lemma mem_spec (x : Z) (l : list Z) : mem x l = true <-> In x l.
Proof.
  unfold mem. rewrite existsb_exists. split.
  - intros (y & Hy & E). apply Z.eqb_eq in E. now subst.
  - intros H. exists x. split; [assumption | apply Z.eqb_refl].
Qed.

Lemma not_mem (x : Z) (l : list Z) : ~ In x l -> mem x l = false.
Proof.
  intros H. destruct (mem x l) eqn:E; [|reflexivity].
  apply mem_spec in E. contradiction.
Qed.

(** ** Workers only append *)

Lemma appends_mret {A : Type} (a : A) : appends (mret a).
Proof. intros st tr rs. unfold mret. simpl. now rewrite !app_nil_r. Qed.

Lemma appends_lift {A : Type} (r : res A) : appends (lift r).
Proof. intros st tr rs. unfold lift. simpl. now rewrite !app_nil_r. Qed.

Lemma appends_socket_socket : appends socket_socket.
Proof. intros st tr rs. unfold socket_socket. simpl. now rewrite app_nil_r. Qed.

Lemma appends_sock_connect (e : env) : appends (sock_connect e).
Proof. intros st tr rs. unfold sock_connect. simpl. now rewrite app_nil_r. Qed.

Lemma appends_sock_sendall (e : env) (request : bytes) : appends (sock_sendall e request).
Proof. intros st tr rs. unfold sock_sendall. simpl. now rewrite app_nil_r. Qed.

Lemma appends_sock_recv (e : env) : appends (sock_recv e).
Proof. intros st tr rs. unfold sock_recv. simpl. now rewrite app_nil_r. Qed.

Lemma appends_sock_close : appends sock_close.
Proof. intros st tr rs. unfold sock_close. simpl. now rewrite app_nil_r. Qed.

Lemma appends_results_append (line : string) : appends (results_append line).
Proof. intros st tr rs. unfold results_append. simpl. now rewrite app_nil_r. Qed.

Lemma appends_mbind {A B : Type} (c : M A) (k : A -> M B) :
  appends c -> (forall a, appends (k a)) -> appends (mbind c k).
Proof.
  intros Hc Hk st tr rs. unfold mbind. rewrite (Hc st tr rs).
  destruct (c (mkW st [] [])) as [[a|x] [st' tr' rs']]; simpl.
  - rewrite (Hk a st' (tr ++ tr') (rs ++ rs')), (Hk a st' tr' rs'). simpl.
    now rewrite !app_assoc.
  - reflexivity.
Qed.

Lemma appends_try_except_pass (body : M unit) :
  appends body -> appends (try_except_pass body).
Proof.
  intros Hb st tr rs. unfold try_except_pass. rewrite (Hb st tr rs).
  destruct (body (mkW st [] [])) as [[a|x] [st' tr' rs']]; simpl.
  - reflexivity.
  - destruct (is_Exception x); reflexivity.
Qed.

Create HintDb appends.
#[local] Hint Resolve appends_mret appends_lift appends_socket_socket appends_sock_connect
  appends_sock_sendall appends_sock_recv appends_sock_close appends_results_append
  appends_try_except_pass : appends.

Ltac appends_step :=
  match goal with
  | |- appends (mbind _ _) => apply appends_mbind; [| intros ?]
  | |- appends (if ?b then _ else _) => destruct b
  | |- appends (match ?x with _ => _ end) => destruct x
  | |- appends _ => solve [auto with appends]
  end.

Lemma appends_rw_report (unit_id logical_address : Z) (dt : data_type) (op : operation)
  (data : option bytes) :
  appends (ReadWrite.report unit_id logical_address dt op data).
Proof. unfold ReadWrite.report. repeat appends_step. Qed.

Lemma appends_rw_exchange (e : env) (u fc pa la : Z) (dt : data_type) (op : operation)
  (value : option Z) :
  appends (ReadWrite.exchange e u fc pa la dt op value).
Proof.
  unfold ReadWrite.exchange. repeat appends_step. apply appends_rw_report.
Qed.

Lemma appends_rw_run_task (e : env) (t : submission) : appends (ReadWrite.run_task e t).
Proof.
  unfold ReadWrite.run_task, ReadWrite.read_or_write_data.
  apply appends_try_except_pass, appends_rw_exchange.
Qed.

Lemma appends_enum_report (unit_id logical_address : Z) (dt : data_type)
  (data : option bytes) :
  appends (Enum.report unit_id logical_address dt data).
Proof. unfold Enum.report. repeat appends_step. Qed.

Lemma appends_enum_exchange (e : env) (u fc pa la : Z) (dt : data_type) :
  appends (Enum.exchange e u fc pa la dt).
Proof.
  unfold Enum.exchange. repeat appends_step. apply appends_enum_report.
Qed.

Lemma appends_enum_run_task (e : env) (t : submission) : appends (Enum.run_task e t).
Proof.
  unfold Enum.run_task, Enum.read_data.
  apply appends_try_except_pass, appends_enum_exchange.
Qed.

(** A task run in a batch does what it does alone, after what was there. *)
Lemma rw_run_task_fresh (e : env) (t : submission) (tr : list event) (rs : list string) :
  ReadWrite.run_task e t (fresh tr rs) =
  (rw_outcome e t, mkW (rw_socket e t) (tr ++ rw_events e t) (rs ++ rw_lines e t)).
Proof. unfold fresh. now rewrite (appends_rw_run_task e t NoSocket tr rs). Qed.

Lemma enum_run_task_fresh (e : env) (t : submission) (tr : list event) (rs : list string) :
  Enum.run_task e t (fresh tr rs) =
  (enum_outcome e t, mkW (enum_socket e t) (tr ++ enum_events e t) (rs ++ enum_lines e t)).
Proof. unfold fresh. now rewrite (appends_enum_run_task e t NoSocket tr rs). Qed.

Lemma rw_run_batch_lines (work : list (env * submission)) (tr : list event) (rs : list string) :
  lines_of (ReadWrite.run_batch work tr rs) =
  rs ++ flat_map (fun w => rw_lines (fst w) (snd w)) work.
Proof.
  revert tr rs. induction work as [|[e t] rest IH]; intros tr rs; simpl.
  - now rewrite app_nil_r.
  - rewrite rw_run_task_fresh. simpl.
    specialize (IH (tr ++ rw_events e t) (rs ++ rw_lines e t)).
    destruct (ReadWrite.run_batch rest (tr ++ rw_events e t) (rs ++ rw_lines e t))
      as [[outs tr'] rs'].
    unfold lines_of in *. simpl in *. now rewrite IH, app_assoc.
Qed.

Lemma enum_run_batch_lines (work : list (env * submission)) (tr : list event) (rs : list string) :
  lines_of (Enum.run_batch work tr rs) =
  rs ++ flat_map (fun w => enum_lines (fst w) (snd w)) work.
Proof.
  revert tr rs. induction work as [|[e t] rest IH]; intros tr rs; simpl.
  - now rewrite app_nil_r.
  - rewrite enum_run_task_fresh. simpl.
    specialize (IH (tr ++ enum_events e t) (rs ++ enum_lines e t)).
    destruct (Enum.run_batch rest (tr ++ enum_events e t) (rs ++ enum_lines e t))
      as [[outs tr'] rs'].
    unfold lines_of in *. simpl in *. now rewrite IH, app_assoc.
Qed.

Lemma rw_run_batch_outcomes (work : list (env * submission)) (tr : list event) (rs : list string) :
  outcomes_of (ReadWrite.run_batch work tr rs) =
  List.map (fun w => rw_outcome (fst w) (snd w)) work.
Proof.
  revert tr rs. induction work as [|[e t] rest IH]; intros tr rs; simpl.
  - reflexivity.
  - rewrite rw_run_task_fresh. simpl.
    specialize (IH (tr ++ rw_events e t) (rs ++ rw_lines e t)).
    destruct (ReadWrite.run_batch rest (tr ++ rw_events e t) (rs ++ rw_lines e t))
      as [[outs tr'] rs'].
    unfold outcomes_of in *. simpl in *. now rewrite IH.
Qed.

Lemma enum_run_batch_outcomes (work : list (env * submission)) (tr : list event) (rs : list string) :
  outcomes_of (Enum.run_batch work tr rs) =
  List.map (fun w => enum_outcome (fst w) (snd w)) work.
Proof.
  revert tr rs. induction work as [|[e t] rest IH]; intros tr rs; simpl.
  - reflexivity.
  - rewrite enum_run_task_fresh. simpl.
    specialize (IH (tr ++ enum_events e t) (rs ++ enum_lines e t)).
    destruct (Enum.run_batch rest (tr ++ enum_events e t) (rs ++ enum_lines e t))
      as [[outs tr'] rs'].
    unfold outcomes_of in *. simpl in *. now rewrite IH.
Qed.

(** ** The worker, stage by stage *)

Ltac unfold_worker :=
  unfold rw_outcome, rw_socket, rw_events, rw_lines,
    enum_outcome, enum_socket, enum_events, enum_lines,
    ReadWrite.run_task, ReadWrite.read_or_write_data, ReadWrite.exchange,
    Enum.run_task, Enum.read_data, Enum.exchange,
    try_except_pass, mbind, lift, socket_socket, sock_connect, sock_sendall,
    sock_recv, sock_close, fresh, log, set_sock; simpl.

(** When every call up to the decoder succeeds, the worker has closed its
    socket and goes on to report the decoded data. *)
Lemma rw_reaches_report (e : env) (u fc pa la : Z) (dt : data_type) (op : operation)
  (value : option Z) (request response : bytes) (data : option bytes)
  (tr : list event) (rs : list string) :
  on_connect e = Ok tt ->
  ReadWrite.request_of (thread_ident e mod 65535) u fc pa op value = Ok request ->
  on_sendall e = Ok tt ->
  on_recv e = Ok response ->
  ReadWrite.parse_modbus_response response = Ok data ->
  ReadWrite.read_or_write_data e u fc pa la dt op value (fresh tr rs) =
  try_except_pass (ReadWrite.report u la dt op data)
    (mkW SockClosed (tr ++ [EvSocket; EvConnect; EvSend request; EvRecv; EvClose]) rs).
Proof.
  intros Hc Hb Hs Hr Hp. unfold_worker.
  rewrite Hc, Hb. simpl. rewrite Hs. simpl. rewrite Hr, Hp. simpl.
  now rewrite <- !app_assoc.
Qed.

Lemma enum_reaches_report (e : env) (u fc pa la : Z) (dt : data_type)
  (request response : bytes) (data : option bytes)
  (tr : list event) (rs : list string) :
  on_connect e = Ok tt ->
  Enum.build_modbus_request (thread_ident e mod 65535) u fc pa 1 = Ok request ->
  on_sendall e = Ok tt ->
  on_recv e = Ok response ->
  Enum.parse_modbus_response response = Ok data ->
  Enum.read_data e u fc pa la dt (fresh tr rs) =
  try_except_pass (Enum.report u la dt data)
    (mkW SockClosed (tr ++ [EvSocket; EvConnect; EvSend request; EvRecv; EvClose]) rs).
Proof.
  intros Hc Hb Hs Hr Hp. unfold_worker.
  rewrite Hc, Hb. simpl. rewrite Hs. simpl. rewrite Hr, Hp. simpl.
  now rewrite <- !app_assoc.
Qed.

(** What the report block does with a register payload. *)
Lemma rw_report_register (u la : Z) (dt : data_type) (h l : byte) (more : bytes) (s : wstate) :
  dt = hr \/ dt = ir ->
  ReadWrite.report u la dt read (Some (h :: l :: more)) s =
  (Ok tt, mkW (sock s) (trace s) (results s ++ [ReadWrite.value_line u dt la (be16 h l)])).
Proof.
  intros [-> | ->]; reflexivity.
Qed.

Lemma rw_report_short_register (u la : Z) (dt : data_type) (b : byte) (s : wstate) :
  dt = hr \/ dt = ir ->
  ReadWrite.report u la dt read (Some [b]) s = (Ok tt, s).
Proof.
  intros [-> | ->]; reflexivity.
Qed.

Lemma enum_report_register (u la : Z) (dt : data_type) (h l : byte) (more : bytes) (s : wstate) :
  dt = hr \/ dt = ir ->
  Enum.report u la dt (Some (h :: l :: more)) s =
  (Ok tt, mkW (sock s) (trace s) (results s ++ [Enum.register_line u dt la (be16 h l)])).
Proof.
  intros [-> | ->]; reflexivity.
Qed.

Lemma enum_report_short_register (u la : Z) (dt : data_type) (b : byte) (s : wstate) :
  dt = hr \/ dt = ir ->
  Enum.report u la dt (Some [b]) s = (Ok tt, s).
Proof.
  intros [-> | ->]; reflexivity.
Qed.

(** Nothing usable: [None] and the empty payload take the same branch. *)
Lemma rw_report_falsy (u la : Z) (dt : data_type) (op : operation) (data : option bytes)
  (s : wstate) :
  truthy data = false ->
  ReadWrite.report u la dt op data s =
  (Ok tt, mkW (sock s) (trace s) (results s ++ [ReadWrite.failed_line op u dt la])).
Proof.
  intros H. unfold ReadWrite.report. rewrite H. destruct op; reflexivity.
Qed.

Lemma enum_report_falsy (u la : Z) (dt : data_type) (data : option bytes) (s : wstate) :
  truthy data = false -> Enum.report u la dt data s = (Ok tt, s).
Proof.
  intros H. unfold Enum.report. now rewrite H.
Qed.

(** ** The decoders *)

Lemma rw_parse_short (response : bytes) :
  (List.length response < 8)%nat -> ReadWrite.parse_modbus_response response = Ok None.
Proof.
  intros H. unfold ReadWrite.parse_modbus_response.
  apply Nat.ltb_lt in H. now rewrite H.
Qed.

Lemma enum_parse_short (response : bytes) :
  (List.length response < 9)%nat -> Enum.parse_modbus_response response = Ok None.
Proof.
  intros H. unfold Enum.parse_modbus_response.
  apply Nat.ltb_lt in H. now rewrite H.
Qed.

(** The read/write decoder on a response of eight bytes or more, by the
    function code [f] and what follows the header. *)
Lemma rw_parse_long (a1 a0 b1 b0 c1 c0 d f : byte) (rest : bytes) :
  ReadWrite.parse_modbus_response (a1 :: a0 :: b1 :: b0 :: c1 :: c0 :: d :: f :: rest) =
  if 128 <=? byte_val f then Ok None
  else if mem (byte_val f) [1; 2; 3; 4] then
    match rest with
    | [] => Raise IndexError
    | n :: more => Ok (Some (firstn (Z.to_nat (byte_val n)) more))
    end
  else if mem (byte_val f) [5; 6] then Ok (Some (firstn 4 rest))
  else Ok None.
Proof.
  unfold ReadWrite.parse_modbus_response, ReadWrite.response_header, slice. simpl.
  destruct (128 <=? byte_val f); [reflexivity|].
  destruct (mem (byte_val f) [1; 2; 3; 4]).
  - destruct rest as [|n more]; simpl; [reflexivity|].
    now rewrite Nat.sub_0_r.
  - reflexivity.
Qed.

(** The enumeration decoder on a response of nine bytes or more. *)
Lemma enum_parse_long (a1 a0 b1 b0 c1 c0 d f n : byte) (more : bytes) :
  Enum.parse_modbus_response (a1 :: a0 :: b1 :: b0 :: c1 :: c0 :: d :: f :: n :: more) =
  if 128 <=? byte_val f then Ok None
  else if mem (byte_val f) [1; 2; 3; 4] then
    Ok (Some (firstn (Z.to_nat (byte_val n)) more))
  else Ok None.
Proof.
  unfold Enum.parse_modbus_response, slice. simpl.
  destruct (128 <=? byte_val f); [reflexivity|].
  destruct (mem (byte_val f) [1; 2; 3; 4]); [|reflexivity].
  simpl. now rewrite Nat.sub_0_r.
Qed.

Ltac split_header response :=
  do 8 (destruct response as [|? response]; [simpl in *; try discriminate; try lia|]).

Lemma enum_parse_total (response : bytes) :
  exists data, Enum.parse_modbus_response response = Ok data.
Proof.
  destruct (Nat.ltb_spec (List.length response) 9) as [H|H].
  - exists None. now apply enum_parse_short.
  - split_header response.
    destruct response as [|n more]; [simpl in H; lia|].
    rewrite enum_parse_long.
    destruct (128 <=? _); [eauto|]. destruct (mem _ _); eauto.
Qed.

Lemma rw_parse_raises_iff (response : bytes) (x : exn) :
  ReadWrite.parse_modbus_response response = Raise x <->
  x = IndexError /\ List.length response = 8%nat /\
  exists f, nth_error response 7 = Some f /\ mem (byte_val f) [1; 2; 3; 4] = true.
Proof.
  destruct (Nat.ltb_spec (List.length response) 8) as [H|H].
  - rewrite rw_parse_short by assumption. split; [discriminate | lia].
  - split_header response. rewrite rw_parse_long. simpl.
    split.
    + destruct (128 <=? _); [discriminate|].
      destruct (mem _ [1; 2; 3; 4]) eqn:E.
      * destruct response; [|discriminate].
        intros [= <-]. eauto.
      * destruct (mem _ [5; 6]); discriminate.
    + intros (-> & Hl & f & [= <-] & Hf).
      destruct response; [|simpl in Hl; lia].
      rewrite Hf.
      destruct (128 <=? _) eqn:E; [|reflexivity].
      apply Z.leb_le in E. apply mem_spec in Hf. simpl in Hf. lia.
Qed.

(** A function code with the high bit set decodes to "no usable data",
    whatever follows it. *)
Lemma rw_parse_exception_code (response : bytes) (f : byte) :
  nth_error response 7 = Some f -> 128 <= byte_val f ->
  ReadWrite.parse_modbus_response response = Ok None.
Proof.
  intros Hn Hf. split_header response. rewrite rw_parse_long.
  simpl in Hn. injection Hn as ->. apply Z.leb_le in Hf. now rewrite Hf.
Qed.

Lemma enum_parse_exception_code (response : bytes) (f : byte) :
  nth_error response 7 = Some f -> 128 <= byte_val f ->
  Enum.parse_modbus_response response = Ok None.
Proof.
  intros Hn Hf. split_header response.
  simpl in Hn. injection Hn as ->.
  destruct response as [|n more]; [reflexivity|].
  rewrite enum_parse_long. apply Z.leb_le in Hf. now rewrite Hf.
Qed.

(** ** Transport errors *)

Lemma transport_error_is_Exception (x : exn) :
  is_transport_error x = true -> is_Exception x = true.
Proof. destruct x; simpl; congruence. Qed.

Ltac break_network e :=
  destruct (on_connect e) as [[]|?]; simpl in *;
  [ destruct (on_sendall e) as [[]|?]; simpl in *;
    [ destruct (on_recv e) as [?|?]; simpl in *; [discriminate|] | ] | ];
  match goal with
  | H : is_transport_error ?x = true |- _ =>
      rewrite ?(transport_error_is_Exception x H)
  end.

Lemma pack_H_raises (x : Z) (y : exn) : pack_H x = Raise y -> y = StructError.
Proof. unfold pack_H. destruct (in_range 0 65535 x); congruence. Qed.

Lemma pack_B_raises (x : Z) (y : exn) : pack_B x = Raise y -> y = StructError.
Proof. unfold pack_B. destruct (in_range 0 255 x); congruence. Qed.

Lemma rbind_raises {A B : Type} (c : res A) (k : A -> res B) (y : exn) :
  rbind c k = Raise y -> c = Raise y \/ exists a, c = Ok a /\ k a = Raise y.
Proof. destruct c as [a|x]; simpl; [eauto | intros [= ->]; auto]. Qed.

Lemma pack_HHHBBH_raises (a b c d e f : Z) (y : exn) :
  pack_HHHBBH a b c d e f = Raise y -> y = StructError.
Proof.
  unfold pack_HHHBBH. intros H.
  repeat match goal with
  | H : rbind _ _ = Raise _ |- _ => apply rbind_raises in H as [H | (? & _ & H)]
  | H : pack_H _ = Raise _ |- _ => exact (pack_H_raises _ _ H)
  | H : pack_B _ = Raise _ |- _ => exact (pack_B_raises _ _ H)
  end.
  discriminate.
Qed.

(** The encoders raise nothing but subclasses of [Exception]. *)
Lemma rw_build_raises (t u f a : Z) (value : option Z) (count : Z) (y : exn) :
  ReadWrite.build_modbus_request t u f a value count = Raise y -> is_Exception y = true.
Proof.
  unfold ReadWrite.build_modbus_request. intros H.
  destruct value as [v|];
    [destruct (mem f [5; 6]) | destruct (mem f [1; 2; 3; 4])];
    try (injection H as <-; reflexivity);
    apply rbind_raises in H as [H | (? & _ & H)];
    try (apply pack_HHHBBH_raises in H; now subst);
    apply rbind_raises in H as [H | (? & _ & H)];
    try discriminate; apply pack_H_raises in H; now subst.
Qed.

Lemma rw_request_raises (t u f a : Z) (op : operation) (value : option Z) (y : exn) :
  ReadWrite.request_of t u f a op value = Raise y -> is_Exception y = true.
Proof. destruct op; apply rw_build_raises. Qed.

Lemma enum_build_raises (t u f a count : Z) (y : exn) :
  Enum.build_modbus_request t u f a count = Raise y -> is_Exception y = true.
Proof.
  unfold Enum.build_modbus_request. intros H.
  apply rbind_raises in H as [H | (? & _ & H)];
    [apply pack_HHHBBH_raises in H; now subst|].
  destruct (mem f [1; 2; 3; 4]); [|discriminate].
  apply rbind_raises in H as [H | (? & _ & H)];
    try discriminate; apply pack_H_raises in H; now subst.
Qed.

Lemma rw_transport_failure (e : env) (t : submission) :
  transport_fails e = true ->
  rw_outcome e t = Ok tt /\ rw_lines e t = [] /\
  connects (rw_events e t) = 1%nat /\ closes (rw_events e t) = 0%nat /\
  rw_socket e t = SockOpen.
Proof.
  intros H. unfold transport_fails in H. unfold_worker.
  destruct (ReadWrite.request_of _ _ _ _ _ _) as [request|y] eqn:B;
    try (apply rw_request_raises in B);
    break_network e; simpl; rewrite ?B; simpl; auto.
Qed.

Lemma enum_transport_failure (e : env) (t : submission) :
  transport_fails e = true ->
  enum_outcome e t = Ok tt /\ enum_lines e t = [] /\
  connects (enum_events e t) = 1%nat /\ closes (enum_events e t) = 0%nat /\
  enum_socket e t = SockOpen.
Proof.
  intros H. unfold transport_fails in H. unfold_worker.
  destruct (Enum.build_modbus_request _ _ _ _ _) as [request|y] eqn:B;
    try (apply enum_build_raises in B);
    break_network e; simpl; rewrite ?B; simpl; auto.
Qed.

Lemma first_raise_skip_ok (l1 l2 : list (res unit)) :
  first_raise (l1 ++ Ok tt :: l2) = first_raise (l1 ++ l2).
Proof.
  induction l1 as [|[[]|x] l1 IH]; simpl; auto.
Qed.

Lemma rw_report_keeps_socket (u la : Z) (dt : data_type) (op : operation)
  (data : option bytes) (s : wstate) :
  fst (ReadWrite.report u la dt op data s) = Ok tt /\
  sock (snd (ReadWrite.report u la dt op data s)) = sock s /\
  trace (snd (ReadWrite.report u la dt op data s)) = trace s.
Proof.
  destruct data as [[|b [|b' more]]|], op, dt; simpl; auto.
Qed.

Lemma enum_report_keeps_socket (u la : Z) (dt : data_type) (data : option bytes) (s : wstate) :
  fst (Enum.report u la dt data s) = Ok tt /\
  sock (snd (Enum.report u la dt data s)) = sock s /\
  trace (snd (Enum.report u la dt data s)) = trace s.
Proof.
  destruct data as [[|b [|b' more]]|], dt; simpl; auto.
Qed.

(** On the path on which nothing raises, the socket is closed. *)
Lemma rw_socket_closed_after_decode (e : env) (u fc pa la : Z) (dt : data_type)
  (op : operation) (value : option Z) (request response : bytes) (data : option bytes)
  (tr : list event) (rs : list string) :
  on_connect e = Ok tt ->
  ReadWrite.request_of (thread_ident e mod 65535) u fc pa op value = Ok request ->
  on_sendall e = Ok tt ->
  on_recv e = Ok response ->
  ReadWrite.parse_modbus_response response = Ok data ->
  sock (snd (ReadWrite.read_or_write_data e u fc pa la dt op value (fresh tr rs))) = SockClosed.
Proof.
  intros Hc Hb Hs Hr Hp.
  rewrite (rw_reaches_report e u fc pa la dt op value request response data tr rs)
    by assumption.
  unfold try_except_pass.
  pose proof (rw_report_keeps_socket u la dt op data
    (mkW SockClosed (tr ++ [EvSocket; EvConnect; EvSend request; EvRecv; EvClose]) rs))
    as (Ho & Hk & _).
  destruct (ReadWrite.report _ _ _ _ _ _) as [[[]|x] s']; simpl in *;
    [assumption | discriminate].
Qed.

(** ** The claims about the worker *)

(** C1, as amended.  When the exchange of a work item breaks on a connect,
    send, receive or timeout error, the worker of either tool swallows the
    exception: it returns normally, appends no record to the slave's result
    list (no Failed record either), has called [connect] exactly once, and
    the lines and outcomes of the other work items of the batch are what
    they are without it. *)
Theorem transport_failure_is_swallowed (e : env) (t : submission) :
  transport_fails e = true ->
  (forall tr rs,
     ReadWrite.run_task e t (fresh tr rs) = (Ok tt, mkW SockOpen (tr ++ rw_events e t) rs) /\
     Enum.run_task e t (fresh tr rs) = (Ok tt, mkW SockOpen (tr ++ enum_events e t) rs)) /\
  (connects (rw_events e t) = 1%nat /\ connects (enum_events e t) = 1%nat) /\
  (forall before after tr rs,
     lines_of (ReadWrite.run_batch (before ++ (e, t) :: after) tr rs) =
       lines_of (ReadWrite.run_batch (before ++ after) tr rs) /\
     lines_of (Enum.run_batch (before ++ (e, t) :: after) tr rs) =
       lines_of (Enum.run_batch (before ++ after) tr rs)) /\
  (forall before after tr rs,
     first_raise (outcomes_of (ReadWrite.run_batch (before ++ (e, t) :: after) tr rs)) =
       first_raise (outcomes_of (ReadWrite.run_batch (before ++ after) tr rs)) /\
     first_raise (outcomes_of (Enum.run_batch (before ++ (e, t) :: after) tr rs)) =
       first_raise (outcomes_of (Enum.run_batch (before ++ after) tr rs))).
Proof.
  intros H.
  destruct (rw_transport_failure e t H) as (Ro & Rl & Rc & _ & Rs).
  destruct (enum_transport_failure e t H) as (Eo & El & Ec & _ & Es).
  repeat split; try assumption.
  - rewrite rw_run_task_fresh, Ro, Rl, Rs. now rewrite app_nil_r.
  - rewrite enum_run_task_fresh, Eo, El, Es. now rewrite app_nil_r.
  - rewrite !rw_run_batch_lines, !flat_map_app. simpl. now rewrite Rl.
  - rewrite !enum_run_batch_lines, !flat_map_app. simpl. now rewrite El.
  - rewrite !rw_run_batch_outcomes, !map_app. simpl. rewrite Ro.
    apply first_raise_skip_ok.
  - rewrite !enum_run_batch_outcomes, !map_app. simpl. rewrite Eo.
    apply first_raise_skip_ok.
Qed.

Lemma transport_failure_is_swallowed_witness :
  transport_fails (failing_at AtRecv 7 TimeoutError) = true /\
  lines_of (ReadWrite.run_batch
              [(failing_at AtRecv 7 TimeoutError, mkSub 1 4 4 30005 ir read None)] [] []) = [].
Proof.
  split; [reflexivity|].
  exact (proj1 (proj1 (proj2 (proj2
    (transport_failure_is_swallowed (failing_at AtRecv 7 TimeoutError)
       (mkSub 1 4 4 30005 ir read None) eq_refl))) [] [] [] [])).
Defined.

(** C1 as stated fails: a connection timeout for input register 30005
    leaves the result list empty; no Failed record is appended. *)
Lemma timeout_appends_no_failed_record :
  transport_fails (failing_at AtConnect 1 TimeoutError) = true /\
  results (snd (ReadWrite.run_task (failing_at AtConnect 1 TimeoutError)
                  (mkSub 1 4 4 30005 ir read None) (fresh [] []))) = [] /\
  ~ In (ReadWrite.failed_read_line 1 ir 30005)
       (results (snd (ReadWrite.run_task (failing_at AtConnect 1 TimeoutError)
                        (mkSub 1 4 4 30005 ir read None) (fresh [] [])))).
Proof.
  split; [reflexivity|]. split; [reflexivity|]. intros [].
Qed.

(** C2: the code does not do what the claim says.  Whatever call of the
    exchange raises (connect, sendall or recv) and whatever it raises, the
    worker of either tool finishes with its socket still open: [close] is
    not called on any path on which an exception is raised. *)
Theorem socket_left_open_when_exchange_raises
  (st : stage) (ident : Z) (x : exn) (t : submission) (tr : list event) (rs : list string) :
  sock (snd (ReadWrite.run_task (failing_at st ident x) t (fresh tr rs))) = SockOpen /\
  closes (rw_events (failing_at st ident x) t) = 0%nat /\
  sock (snd (Enum.run_task (failing_at st ident x) t (fresh tr rs))) = SockOpen /\
  closes (enum_events (failing_at st ident x) t) = 0%nat.
Proof.
  rewrite rw_run_task_fresh, enum_run_task_fresh. simpl.
  destruct st; unfold_worker.
  - destruct (is_Exception x); auto.
  - destruct (ReadWrite.request_of _ _ _ _ _ _) as [rq|y],
      (Enum.build_modbus_request _ _ _ _ _) as [rq'|y']; simpl;
      repeat match goal with |- context [is_Exception ?z] => destruct (is_Exception z) end;
      simpl; auto.
  - destruct (ReadWrite.request_of _ _ _ _ _ _) as [rq|y],
      (Enum.build_modbus_request _ _ _ _ _) as [rq'|y']; simpl;
      repeat match goal with |- context [is_Exception ?z] => destruct (is_Exception z) end;
      simpl; auto.
Qed.

(** C3: the code does not do what the claim says.  On the eight bytes of a
    header and a read function code, with no byte-count field, the decoder
    of the read/write tool raises [IndexError] at [response[8]] instead of
    returning "no usable data"; the decoder of the enumeration tool returns
    [None] there.  The read/write decoder raises on exactly these inputs; its
    worker swallows the exception, appends no record and leaves the socket
    open. *)
Theorem rw_decoder_raises_on_eight_byte_read_response :
  ReadWrite.parse_modbus_response (of_ints [0; 1; 0; 0; 0; 2; 1; 3]) = Raise IndexError /\
  Enum.parse_modbus_response (of_ints [0; 1; 0; 0; 0; 2; 1; 3]) = Ok None /\
  (forall response x,
     ReadWrite.parse_modbus_response response = Raise x <->
     x = IndexError /\ List.length response = 8%nat /\
     exists f, nth_error response 7 = Some f /\ mem (byte_val f) [1; 2; 3; 4] = true) /\
  ReadWrite.run_task (answering 1 (of_ints [0; 1; 0; 0; 0; 2; 1; 3]))
    (mkSub 1 3 0 40001 hr read None) (fresh [] []) =
  (Ok tt,
   mkW SockOpen
     [EvSocket; EvConnect; EvSend (of_ints [0; 1; 0; 0; 0; 6; 1; 3; 0; 0; 0; 1]); EvRecv]
     []).
Proof.
  split; [reflexivity|]. split; [reflexivity|]. split.
  - intros response x. apply rw_parse_raises_iff.
  - reflexivity.
Qed.

(** The parts of C3 that hold: both decoders return [None] below eight
    bytes and on a function code of 0x80 or more, the enumeration decoder
    returns [None] below nine bytes and never raises, and the read/write
    decoder never raises on an input that is not eight bytes long. *)
Lemma decoders_fail_closed (response : bytes) :
  ((List.length response < 8)%nat ->
     ReadWrite.parse_modbus_response response = Ok None /\
     Enum.parse_modbus_response response = Ok None) /\
  ((List.length response < 9)%nat -> Enum.parse_modbus_response response = Ok None) /\
  (forall f, nth_error response 7 = Some f -> 128 <= byte_val f ->
     ReadWrite.parse_modbus_response response = Ok None /\
     Enum.parse_modbus_response response = Ok None) /\
  (exists data, Enum.parse_modbus_response response = Ok data) /\
  (List.length response <> 8%nat ->
     exists data, ReadWrite.parse_modbus_response response = Ok data).
Proof.
  repeat split.
  - now apply rw_parse_short.
  - apply enum_parse_short. lia.
  - apply enum_parse_short.
  - now apply (rw_parse_exception_code response f).
  - now apply (enum_parse_exception_code response f).
  - apply enum_parse_total.
  - intros Hl. destruct (ReadWrite.parse_modbus_response response) as [data|x] eqn:E.
    + eauto.
    + apply rw_parse_raises_iff in E. tauto.
Qed.

(** The read/write decoder does accept an input of exactly eight bytes
    when the function code is a write code: the payload is empty. *)
Lemma rw_parse_eight_byte_write_response :
  ReadWrite.parse_modbus_response (of_ints [0; 1; 0; 0; 0; 2; 1; 6]) = Ok (Some []).
Proof. reflexivity. Qed.

(** C8, as amended.  For a holding-register or input-register read whose
    response decodes to a payload of at least two bytes, the worker of
    either tool appends the line carrying the big-endian 16-bit unsigned
    integer of the first two payload bytes; for a payload of exactly one
    byte it appends nothing at all: no value and no Failed record. *)
Theorem register_payload_interpretation
  (e : env) (u fc pa la : Z) (dt : data_type) (response : bytes)
  (tr : list event) (rs : list string) :
  dt = hr \/ dt = ir ->
  on_connect e = Ok tt -> on_sendall e = Ok tt -> on_recv e = Ok response ->
  (forall request data,
     ReadWrite.request_of (thread_ident e mod 65535) u fc pa read None = Ok request ->
     ReadWrite.parse_modbus_response response = Ok (Some data) ->
     (forall h l more, data = h :: l :: more ->
        0 <= be16 h l <= 65535 /\
        ReadWrite.read_or_write_data e u fc pa la dt read None (fresh tr rs) =
        (Ok tt,
         mkW SockClosed (tr ++ [EvSocket; EvConnect; EvSend request; EvRecv; EvClose])
           (rs ++ [ReadWrite.value_line u dt la (be16 h l)]))) /\
     (forall b, data = [b] ->
        ReadWrite.read_or_write_data e u fc pa la dt read None (fresh tr rs) =
        (Ok tt,
         mkW SockClosed (tr ++ [EvSocket; EvConnect; EvSend request; EvRecv; EvClose]) rs))) /\
  (forall request data,
     Enum.build_modbus_request (thread_ident e mod 65535) u fc pa 1 = Ok request ->
     Enum.parse_modbus_response response = Ok (Some data) ->
     (forall h l more, data = h :: l :: more ->
        Enum.read_data e u fc pa la dt (fresh tr rs) =
        (Ok tt,
         mkW SockClosed (tr ++ [EvSocket; EvConnect; EvSend request; EvRecv; EvClose])
           (rs ++ [Enum.register_line u dt la (be16 h l)]))) /\
     (forall b, data = [b] ->
        Enum.read_data e u fc pa la dt (fresh tr rs) =
        (Ok tt,
         mkW SockClosed (tr ++ [EvSocket; EvConnect; EvSend request; EvRecv; EvClose]) rs))).
Proof.
  intros Hdt Hc Hs Hr. split; intros request data Hb Hp; split.
  - intros h l more ->. split; [apply be16_range|].
    rewrite (rw_reaches_report e u fc pa la dt read None request response
               (Some (h :: l :: more)) tr rs)
      by assumption.
    unfold try_except_pass. now rewrite rw_report_register.
  - intros b ->.
    rewrite (rw_reaches_report e u fc pa la dt read None request response (Some [b]) tr rs)
      by assumption.
    unfold try_except_pass. now rewrite rw_report_short_register.
  - intros h l more ->.
    rewrite (enum_reaches_report e u fc pa la dt request response (Some (h :: l :: more)) tr rs)
      by assumption.
    unfold try_except_pass. now rewrite enum_report_register.
  - intros b ->.
    rewrite (enum_reaches_report e u fc pa la dt request response (Some [b]) tr rs)
      by assumption.
    unfold try_except_pass. now rewrite enum_report_short_register.
Qed.

Lemma register_payload_interpretation_witness :
  ReadWrite.parse_modbus_response (of_ints [0; 1; 0; 0; 0; 5; 1; 3; 2; 0; 42]) =
    Ok (Some (of_ints [0; 42])) /\
  ReadWrite.read_or_write_data (answering 1 (of_ints [0; 1; 0; 0; 0; 5; 1; 3; 2; 0; 42]))
    1 3 0 40001 hr read None (fresh [] []) =
  (Ok tt,
   mkW SockClosed
     [EvSocket; EvConnect; EvSend (of_ints [0; 1; 0; 0; 0; 6; 1; 3; 0; 0; 0; 1]);
      EvRecv; EvClose]
     [ReadWrite.value_line 1 hr 40001 42]).
Proof.
  split; [reflexivity|].
  exact (proj2 (proj1 (proj1
    (register_payload_interpretation
       (answering 1 (of_ints [0; 1; 0; 0; 0; 5; 1; 3; 2; 0; 42])) 1 3 0 40001 hr
       (of_ints [0; 1; 0; 0; 0; 5; 1; 3; 2; 0; 42]) [] []
       (or_introl eq_refl) eq_refl eq_refl eq_refl)
    (of_ints [0; 1; 0; 0; 0; 6; 1; 3; 0; 0; 0; 1]) (of_ints [0; 42]) eq_refl eq_refl)
    (mk_byte 0) (mk_byte 42) [] eq_refl)).
Defined.

(** C8 as stated fails: a holding-register response whose payload is the
    single byte 0x2A is usable data, yet the worker appends nothing, while a
    response that does not decode makes it append the Failed record. *)
Lemma one_byte_register_payload_is_dropped :
  ReadWrite.parse_modbus_response (of_ints [0; 1; 0; 0; 0; 4; 1; 3; 1; 42]) =
    Ok (Some (of_ints [42])) /\
  results (snd (ReadWrite.read_or_write_data
                  (answering 1 (of_ints [0; 1; 0; 0; 0; 4; 1; 3; 1; 42]))
                  1 3 0 40001 hr read None (fresh [] []))) = [] /\
  results (snd (ReadWrite.read_or_write_data
                  (answering 1 (of_ints [0; 1; 0; 0; 0; 3; 1; 131; 2]))
                  1 3 0 40001 hr read None (fresh [] []))) =
    [ReadWrite.failed_read_line 1 hr 40001].
Proof.
  repeat split.
Qed.

Lemma zero_count_read_response_shape (response : bytes) :
  zero_count_read_response response = true ->
  exists a1 a0 b1 b0 c1 c0 d f n more,
    response = a1 :: a0 :: b1 :: b0 :: c1 :: c0 :: d :: f :: n :: more /\
    mem (byte_val f) [1; 2; 3; 4] = true /\ byte_val n = 0.
Proof.
  unfold zero_count_read_response. intros H.
  split_header response.
  destruct response as [|n more]; [discriminate|].
  simpl in H. apply andb_true_iff in H as [Hf Hn]. apply Z.eqb_eq in Hn.
  do 10 eexists. eauto.
Qed.

Lemma read_code_below_128 (v : Z) : mem v [1; 2; 3; 4] = true -> (128 <=? v) = false.
Proof.
  intros H. apply mem_spec in H. simpl in H. apply Z.leb_gt. lia.
Qed.

(** C9.  A read response whose byte-count field is 0 decodes, in both
    tools, to the empty payload; the worker then does exactly what it does
    for a response that decodes to [None]: the read/write tool appends the
    Failed record, the enumeration tool appends nothing. *)
Theorem zero_byte_count_is_handled_as_no_data (response : bytes) :
  zero_count_read_response response = true ->
  (ReadWrite.parse_modbus_response response = Ok (Some []) /\
   Enum.parse_modbus_response response = Ok (Some [])) /\
  (forall e u fc pa la dt op value request tr rs,
     on_connect e = Ok tt -> on_sendall e = Ok tt ->
     ReadWrite.request_of (thread_ident e mod 65535) u fc pa op value = Ok request ->
     ReadWrite.read_or_write_data (with_recv e response) u fc pa la dt op value (fresh tr rs) =
     (Ok tt,
      mkW SockClosed (tr ++ [EvSocket; EvConnect; EvSend request; EvRecv; EvClose])
        (rs ++ [ReadWrite.failed_line op u dt la]))) /\
  (forall e u fc pa la dt request tr rs,
     on_connect e = Ok tt -> on_sendall e = Ok tt ->
     Enum.build_modbus_request (thread_ident e mod 65535) u fc pa 1 = Ok request ->
     Enum.read_data (with_recv e response) u fc pa la dt (fresh tr rs) =
     (Ok tt,
      mkW SockClosed (tr ++ [EvSocket; EvConnect; EvSend request; EvRecv; EvClose]) rs)) /\
  (forall undecodable e u fc pa la dt op value s,
     ReadWrite.parse_modbus_response undecodable = Ok None ->
     ReadWrite.read_or_write_data (with_recv e response) u fc pa la dt op value s =
     ReadWrite.read_or_write_data (with_recv e undecodable) u fc pa la dt op value s) /\
  (forall undecodable e u fc pa la dt s,
     Enum.parse_modbus_response undecodable = Ok None ->
     Enum.read_data (with_recv e response) u fc pa la dt s =
     Enum.read_data (with_recv e undecodable) u fc pa la dt s).
Proof.
  intros H.
  destruct (zero_count_read_response_shape response H)
    as (a1 & a0 & b1 & b0 & c1 & c0 & d & f & n & more & -> & Hf & Hn).
  assert (Prw : ReadWrite.parse_modbus_response
                  (a1 :: a0 :: b1 :: b0 :: c1 :: c0 :: d :: f :: n :: more) = Ok (Some [])).
  { rewrite rw_parse_long, (read_code_below_128 _ Hf), Hf, Hn. reflexivity. }
  assert (Pen : Enum.parse_modbus_response
                  (a1 :: a0 :: b1 :: b0 :: c1 :: c0 :: d :: f :: n :: more) = Ok (Some [])).
  { rewrite enum_parse_long, (read_code_below_128 _ Hf), Hf, Hn. reflexivity. }
  split; [split; assumption|]. split; [|split; [|split]].
  - intros e u fc pa la dt op value request tr rs Hc Hs Hb.
    rewrite (rw_reaches_report (with_recv e _) u fc pa la dt op value request _ (Some []) tr rs)
      by (try reflexivity; assumption).
    unfold try_except_pass. now rewrite rw_report_falsy.
  - intros e u fc pa la dt request tr rs Hc Hs Hb.
    rewrite (enum_reaches_report (with_recv e _) u fc pa la dt request _ (Some []) tr rs)
      by (try reflexivity; assumption).
    unfold try_except_pass. now rewrite enum_report_falsy.
  - intros undecodable e u fc pa la dt op value s Hu.
    unfold_worker. rewrite Prw, Hu. reflexivity.
  - intros undecodable e u fc pa la dt s Hu.
    unfold_worker. rewrite Pen, Hu. reflexivity.
Qed.

Lemma zero_byte_count_is_handled_as_no_data_witness :
  zero_count_read_response (of_ints [0; 1; 0; 0; 0; 3; 1; 4; 0]) = true /\
  ReadWrite.read_or_write_data
    (with_recv (answering 1 []) (of_ints [0; 1; 0; 0; 0; 3; 1; 4; 0]))
    1 4 4 30005 ir read None (fresh [] []) =
  (Ok tt,
   mkW SockClosed
     [EvSocket; EvConnect; EvSend (of_ints [0; 1; 0; 0; 0; 6; 1; 4; 0; 4; 0; 1]);
      EvRecv; EvClose]
     [ReadWrite.failed_line read 1 ir 30005]).
Proof.
  split; [reflexivity|].
  exact (proj1 (proj2
    (zero_byte_count_is_handled_as_no_data (of_ints [0; 1; 0; 0; 0; 3; 1; 4; 0]) eq_refl))
    (answering 1 []) 1 4 4 30005 ir read None
    (of_ints [0; 1; 0; 0; 0; 6; 1; 4; 0; 4; 0; 1]) [] [] eq_refl eq_refl eq_refl).
Defined.

(** ** Bit extraction *)

Lemma land_1_is_bit_0 (v : Z) : Z.land v 1 = Z.b2z (Z.testbit v 0).
Proof.
  rewrite Z.bit0_mod. change 1 with (Z.ones 1) at 1.
  rewrite Z.land_ones by lia. reflexivity.
Qed.

(** C10.  On a non-empty payload the bit the enumeration tool takes (the
    first of the bits of all payload bytes, least significant first) and
    the bit the read/write tool takes ([data[0] & 0x01]) are the same: bit
    0 of the first payload byte; the two report blocks append the same line
    for a coil or a discrete input. *)
Theorem enum_first_bit_is_rw_coil_bit (data : bytes) :
  data <> [] ->
  exists b rest,
    data = b :: rest /\
    Enum.first_bit data = Some (Z.land (byte_val b) 1) /\
    ReadWrite.coil_bit data = Ok (Z.land (byte_val b) 1) /\
    Z.land (byte_val b) 1 = Z.b2z (Z.testbit (byte_val b) 0) /\
    (forall u la dt s, dt = coil \/ dt = di ->
       Enum.report u la dt (Some data) s = ReadWrite.report u la dt read (Some data) s).
Proof.
  intros Hne. destruct data as [|b rest]; [contradiction|].
  exists b, rest.
  assert (Hf : Enum.first_bit (b :: rest) = Some (Z.land (byte_val b) 1)).
  { unfold Enum.first_bit, Enum.expand_bits. simpl. now rewrite Z.shiftr_0_r. }
  split; [reflexivity|]. split; [exact Hf|]. split; [reflexivity|].
  split; [apply land_1_is_bit_0|].
  intros u la dt s [-> | ->]; unfold Enum.report, ReadWrite.report;
    simpl truthy; cbv iota; unfold Enum.payload, ReadWrite.payload; rewrite Hf; reflexivity.
Qed.

Lemma enum_first_bit_is_rw_coil_bit_witness :
  of_ints [5; 2] <> [] /\
  exists b rest,
    of_ints [5; 2] = b :: rest /\
    Enum.first_bit (of_ints [5; 2]) = Some (Z.land (byte_val b) 1) /\
    ReadWrite.coil_bit (of_ints [5; 2]) = Ok (Z.land (byte_val b) 1) /\
    Z.land (byte_val b) 1 = Z.b2z (Z.testbit (byte_val b) 0) /\
    (forall u la dt s, dt = coil \/ dt = di ->
       Enum.report u la dt (Some (of_ints [5; 2])) s =
       ReadWrite.report u la dt read (Some (of_ints [5; 2])) s).
Proof.
  assert (H : of_ints [5; 2] <> []) by discriminate.
  split; [exact H | exact (enum_first_bit_is_rw_coil_bit (of_ints [5; 2]) H)].
Defined.

(** ** The encoders *)

(** The header [struct.unpack] reads back from a packed frame. *)
Lemma header_of_packed (a b c d e f : Z) (tail : bytes) :
  0 <= a <= 65535 -> 0 <= b <= 65535 -> 0 <= c <= 65535 ->
  0 <= d <= 255 -> 0 <= e <= 255 ->
  unpack_HHHBB
    (slice ([mk_byte (a / 256); mk_byte (a mod 256); mk_byte (b / 256); mk_byte (b mod 256);
             mk_byte (c / 256); mk_byte (c mod 256); mk_byte d; mk_byte e;
             mk_byte (f / 256); mk_byte (f mod 256)] ++ tail) 0 8) =
  Ok (a, b, c, d, e).
Proof.
  intros Ha Hb Hc Hd He.
  change (Ok (be16 (mk_byte (a / 256)) (mk_byte (a mod 256)),
              be16 (mk_byte (b / 256)) (mk_byte (b mod 256)),
              be16 (mk_byte (c / 256)) (mk_byte (c mod 256)),
              byte_val (mk_byte d), byte_val (mk_byte e)) = Ok (a, b, c, d, e)).
  now rewrite !be16_split, !byte_val_mk_byte by assumption.
Qed.

(** A frame of the read/write encoder: the ten packed bytes and the two
    bytes of the count or of the value. *)
Lemma rw_build_inv (t u f a : Z) (value : option Z) (count : Z) (request : bytes) :
  ReadWrite.build_modbus_request t u f a value count = Ok request ->
  (0 <= t <= 65535 /\ 0 <= u <= 255 /\ 0 <= f <= 255 /\ 0 <= a <= 65535) /\
  exists last,
    0 <= last <= 65535 /\
    match value with
    | Some v => last = v /\ mem f [5; 6] = true
    | None => last = count /\ mem f [1; 2; 3; 4] = true
    end /\
    request =
    [mk_byte (t / 256); mk_byte (t mod 256); mk_byte (0 / 256); mk_byte (0 mod 256);
     mk_byte (6 / 256); mk_byte (6 mod 256); mk_byte u; mk_byte f;
     mk_byte (a / 256); mk_byte (a mod 256)] ++
    [mk_byte (last / 256); mk_byte (last mod 256)].
Proof.
  unfold ReadWrite.build_modbus_request. intros H.
  destruct value as [v|];
    [destruct (mem f [5; 6]) eqn:E | destruct (mem f [1; 2; 3; 4]) eqn:E];
    try discriminate;
    apply rbind_inv in H as (hd & Hh & H);
    apply pack_HHHBBH_inv in Hh as ((Rt & _ & _ & Ru & Rf & Ra) & ->);
    apply rbind_inv in H as (tl & Ht & H);
    apply pack_H_inv in Ht as (Rl & ->);
    injection H as <-;
    (split; [auto|]); eexists; (split; [eassumption|]); auto.
Qed.

Lemma rw_parse_packed (t u f a last : Z) :
  0 <= f <= 6 ->
  ReadWrite.parse_modbus_response
    ([mk_byte (t / 256); mk_byte (t mod 256); mk_byte (0 / 256); mk_byte (0 mod 256);
      mk_byte (6 / 256); mk_byte (6 mod 256); mk_byte u; mk_byte f;
      mk_byte (a / 256); mk_byte (a mod 256)] ++
     [mk_byte (last / 256); mk_byte (last mod 256)]) =
  if mem f [1; 2; 3; 4] then
    Ok (Some (firstn (Z.to_nat (byte_val (mk_byte (a / 256))))
                [mk_byte (a mod 256); mk_byte (last / 256); mk_byte (last mod 256)]))
  else if mem f [5; 6] then
    Ok (Some [mk_byte (a / 256); mk_byte (a mod 256);
              mk_byte (last / 256); mk_byte (last mod 256)])
  else Ok None.
Proof.
  intros Rf. cbn [app]. rewrite rw_parse_long, (byte_val_mk_byte f) by lia.
  assert (H128 : (128 <=? f) = false) by (apply Z.leb_gt; lia).
  rewrite H128. reflexivity.
Qed.

(** C4, as amended.  For a function code among 1 to 6 and a request the
    read/write encoder accepts, the first eight encoded bytes unpack, in the
    header step of the decoder, to the request's transaction id, protocol id
    0, length 6, unit id and function code exactly.  What the decoder
    returns carries neither unit id nor function code: it is the payload
    alone, the four bytes of address and value for a write request (both
    unpack back exactly) and, for a read request, the first [address / 256]
    of the three bytes that follow the high byte of the address; it is the
    same for every transaction id, unit id and function code with which the
    encoder accepts the same address, value and count. *)
Theorem encoded_request_decodes_to_payload_only
  (trans_id unit_id f address : Z) (value : option Z) (count : Z) (request : bytes) :
  In f [1; 2; 3; 4; 5; 6] ->
  ReadWrite.build_modbus_request trans_id unit_id f address value count = Ok request ->
  ReadWrite.response_header request = Ok (trans_id, 0, 6, unit_id, f) /\
  ReadWrite.parse_modbus_response request =
    Ok (Some match value with
             | Some v =>
                 [mk_byte (address / 256); mk_byte (address mod 256);
                  mk_byte (v / 256); mk_byte (v mod 256)]
             | None =>
                 firstn (Z.to_nat (address / 256))
                   [mk_byte (address mod 256); mk_byte (count / 256); mk_byte (count mod 256)]
             end) /\
  (forall v echo,
     value = Some v ->
     ReadWrite.parse_modbus_response request = Ok (Some echo) ->
     unpack_H (slice echo 0 2) = Ok address /\ unpack_H (slice echo 2 4) = Ok v) /\
  (forall trans_id' unit_id' f' request',
     ReadWrite.build_modbus_request trans_id' unit_id' f' address value count = Ok request' ->
     ReadWrite.parse_modbus_response request' = ReadWrite.parse_modbus_response request).
Proof.
  intros Hin Hb.
  assert (Hparse : forall t u g rq,
            ReadWrite.build_modbus_request t u g address value count = Ok rq ->
            ReadWrite.parse_modbus_response rq =
            Ok (Some match value with
                     | Some v =>
                         [mk_byte (address / 256); mk_byte (address mod 256);
                          mk_byte (v / 256); mk_byte (v mod 256)]
                     | None =>
                         firstn (Z.to_nat (address / 256))
                           [mk_byte (address mod 256); mk_byte (count / 256);
                            mk_byte (count mod 256)]
                     end)).
  { intros t u g rq H.
    apply rw_build_inv in H as ((_ & _ & Rg & Ra) & last & Rl & Hv & ->).
    assert (Hhi : 0 <= address / 256 <= 255).
    { split; [apply Z.div_pos; lia|].
      assert (address / 256 < 256) by (apply Z.div_lt_upper_bound; lia). lia. }
    destruct value as [v|]; destruct Hv as [-> Hm]; apply mem_spec in Hm as Hg.
    - rewrite rw_parse_packed by (simpl in Hg; lia).
      rewrite Hm. rewrite not_mem by (simpl in *; lia). reflexivity.
    - rewrite rw_parse_packed by (simpl in Hg; lia).
      rewrite Hm, (byte_val_mk_byte _ Hhi). reflexivity. }
  pose proof (Hparse _ _ _ _ Hb) as Hp.
  apply rw_build_inv in Hb as ((Rt & Ru & Rf & Ra) & last & Rl & Hv & ->).
  split; [unfold ReadWrite.response_header; apply header_of_packed; lia|].
  split; [exact Hp|]. split.
  - intros v echo -> He. rewrite Hp in He. injection He as <-.
    destruct Hv as [-> _]. split; simpl; f_equal; now apply be16_split.
  - intros t' u' f' rq' Hb'. now rewrite Hp, (Hparse _ _ _ _ Hb').
Qed.

Lemma encoded_request_decodes_to_payload_only_witness :
  In 6 [1; 2; 3; 4; 5; 6] /\
  ReadWrite.build_modbus_request 258 17 6 6 (Some 42) 1 =
    Ok (of_ints [1; 2; 0; 0; 0; 6; 17; 6; 0; 6; 0; 42]) /\
  ReadWrite.response_header (of_ints [1; 2; 0; 0; 0; 6; 17; 6; 0; 6; 0; 42]) =
    Ok (258, 0, 6, 17, 6) /\
  ReadWrite.parse_modbus_response (of_ints [1; 2; 0; 0; 0; 6; 17; 6; 0; 6; 0; 42]) =
    Ok (Some (of_ints [0; 6; 0; 42])).
Proof.
  assert (Hin : In 6 [1; 2; 3; 4; 5; 6]) by (simpl; auto 10).
  split; [exact Hin|]. split; [reflexivity|].
  pose proof (encoded_request_decodes_to_payload_only 258 17 6 6 (Some 42) 1
                (of_ints [1; 2; 0; 0; 0; 6; 17; 6; 0; 6; 0; 42]) Hin eq_refl)
    as (Hh & Hp & _).
  exact (conj Hh Hp).
Defined.

(** C4 as stated fails: the requests for unit 1 with function code 3 and
    for unit 2 with function code 4 are both accepted, and decoding their
    bytes returns one and the same value, the empty payload; neither the
    unit id nor the function code can be read off it. *)
Lemma decode_forgets_unit_id_and_function_code :
  ReadWrite.build_modbus_request 1 1 3 0 None 1 =
    Ok (of_ints [0; 1; 0; 0; 0; 6; 1; 3; 0; 0; 0; 1]) /\
  ReadWrite.build_modbus_request 1 2 4 0 None 1 =
    Ok (of_ints [0; 1; 0; 0; 0; 6; 2; 4; 0; 0; 0; 1]) /\
  ReadWrite.parse_modbus_response (of_ints [0; 1; 0; 0; 0; 6; 1; 3; 0; 0; 0; 1]) =
    Ok (Some []) /\
  ReadWrite.parse_modbus_response (of_ints [0; 1; 0; 0; 0; 6; 2; 4; 0; 0; 0; 1]) =
    Ok (Some []).
Proof. repeat split. Qed.

(** C5, as amended.  The encoder of the read/write tool raises when a
    value is supplied with a function code other than 5 or 6, and whenever
    the function code is outside 1 to 6; for a write code with a value, and
    for a read code without one, it returns a 12-byte frame when the fields
    fit their wire widths.  The encoder of the enumeration tool takes no
    value and rejects no function code: with fields that fit, it returns a
    frame for every function code, 12 bytes for a read code and the 10 bytes
    of header and address otherwise. *)
Theorem encoder_errors (trans_id unit_id f address count : Z) :
  (forall v, ~ In f [5; 6] ->
     ReadWrite.build_modbus_request trans_id unit_id f address (Some v) count =
     Raise (PyException "Unsupported function code for writing")) /\
  (forall value, ~ In f [1; 2; 3; 4; 5; 6] ->
     exists msg,
       ReadWrite.build_modbus_request trans_id unit_id f address value count =
       Raise (PyException msg)) /\
  (0 <= trans_id <= 65535 -> 0 <= unit_id <= 255 -> 0 <= address <= 65535 ->
   (forall v, In f [5; 6] -> 0 <= v <= 65535 ->
      exists frame,
        ReadWrite.build_modbus_request trans_id unit_id f address (Some v) count = Ok frame /\
        List.length frame = 12%nat) /\
   (In f [1; 2; 3; 4] -> 0 <= count <= 65535 ->
      exists frame,
        ReadWrite.build_modbus_request trans_id unit_id f address None count = Ok frame /\
        List.length frame = 12%nat) /\
   (0 <= f <= 255 -> 0 <= count <= 65535 ->
      exists frame,
        Enum.build_modbus_request trans_id unit_id f address count = Ok frame /\
        List.length frame = if mem f [1; 2; 3; 4] then 12%nat else 10%nat)).
Proof.
  split; [|split].
  - intros v Hn. unfold ReadWrite.build_modbus_request. now rewrite (not_mem _ _ Hn).
  - intros value Hn. unfold ReadWrite.build_modbus_request.
    destruct value as [v|].
    + rewrite not_mem; [eauto|]. simpl in *. tauto.
    + rewrite not_mem; [eauto|]. simpl in *. tauto.
  - intros Rt Ru Ra. split; [|split].
    + intros v Hin Rv. unfold ReadWrite.build_modbus_request.
      apply mem_spec in Hin as Hm. rewrite Hm.
      rewrite pack_HHHBBH_ok by (simpl in Hin; lia).
      simpl. rewrite (pack_H_ok v Rv). simpl. eauto.
    + intros Hin Rc. unfold ReadWrite.build_modbus_request.
      apply mem_spec in Hin as Hm. rewrite Hm.
      rewrite pack_HHHBBH_ok by (simpl in Hin; lia).
      simpl. rewrite (pack_H_ok count Rc). simpl. eauto.
    + intros Rf Rc. unfold Enum.build_modbus_request.
      rewrite pack_HHHBBH_ok by lia. simpl.
      destruct (mem f [1; 2; 3; 4]).
      * rewrite (pack_H_ok count Rc). simpl. eauto.
      * eauto.
Qed.

(** C5 as stated fails: the encoder of the enumeration tool signals no
    error for function code 7; it returns the ten bytes of header and
    address. *)
Lemma enum_encoder_accepts_function_code_7 :
  ~ In 7 [1; 2; 3; 4; 5; 6] /\
  Enum.build_modbus_request 1 1 7 0 1 = Ok (of_ints [0; 1; 0; 0; 0; 6; 1; 7; 0; 0]).
Proof.
  split; [simpl; lia | reflexivity].
Qed.

(** ** The address mapper inside the dispatch loops *)

Lemma rw_submit_addresses_read (unit_id : Z) (dt : data_type) (base fc : Z)
  (values : dict (list Z)) (addresses : list Z) (idx : nat) :
  ReadWrite.submit_addresses false unit_id dt base fc values idx addresses =
  Ok (map (fun a => mkSub unit_id fc (a - base) a dt read None)
        (filter (fun a => base <=? a) addresses)).
Proof.
  revert idx. induction addresses as [|a rest IH]; intros idx; simpl; [reflexivity|].
  destruct (Z.ltb_spec (a - base) 0) as [Hlt|Hge].
  - rewrite IH. assert (E : (base <=? a) = false) by (apply Z.leb_gt; lia).
    now rewrite E.
  - rewrite IH. assert (E : (base <=? a) = true) by (apply Z.leb_le; lia).
    now rewrite E.
Qed.

Lemma enum_submit_addresses_eq (unit_id : Z) (dt : data_type) (fc base : Z)
  (addresses : list Z) :
  Enum.submit_addresses unit_id dt fc base addresses =
  map (fun a => mkSub unit_id fc (a - base) a dt read None)
    (filter (fun a => base <=? a) addresses).
Proof.
  induction addresses as [|a rest IH]; simpl; [reflexivity|].
  destruct (Z.ltb_spec (a - base) 0) as [Hlt|Hge].
  - rewrite IH. assert (E : (base <=? a) = false) by (apply Z.leb_gt; lia).
    now rewrite E.
  - rewrite IH. assert (E : (base <=? a) = true) by (apply Z.leb_le; lia).
    now rewrite E.
Qed.

Lemma range_incl_single (a : Z) : range_incl a a = [a].
Proof.
  unfold range_incl. replace (a + 1 - a) with 1 by lia. simpl. now rewrite Z.add_0_r.
Qed.

Lemma spec_map_read (dt : data_type) (la : Z) :
  Spec.map dt la read =
  if la - Spec.base_address dt <? 0 then Spec.AddressBelowBase
  else Spec.Mapped (la - Spec.base_address dt) (Spec.read_code dt).
Proof. unfold Spec.map. destruct (Spec.write_code dt); reflexivity. Qed.

(** C6.  The dispatch loops map as the specification's mapper does: the
    protocol address is the logical address minus the base of the data type
    (40001, 30001, 1, 10001), the function code is 3, 4, 1, 2 for a read
    and 6, 5 for a write; holding register 40007 read maps to (6, 3) and
    coil 1 written to (0, 5); an address below its base yields no task,
    hence no record, and every other address exactly one task; a write
    against input registers or discrete inputs submits nothing and prints
    the notice. *)
Theorem address_mapping (unit_id logical_address : Z) (dt : data_type) :
  (ReadWrite.type_codes dt = (Spec.base_address dt, Spec.read_code dt, Spec.write_code dt) /\
   Enum.type_codes dt = (Spec.read_code dt, Spec.base_address dt)) /\
  (Spec.map hr 40007 read = Spec.Mapped 6 3 /\
   Spec.map coil 1 write = Spec.Mapped 0 5 /\
   Spec.map ir 30001 write = Spec.UnsupportedWriteTarget) /\
  (forall values,
     ReadWrite.submit_types false unit_id values [(dt, [logical_address])] =
     Ok match Spec.map dt logical_address read with
        | Spec.Mapped pa fc => ([], [mkSub unit_id fc pa logical_address dt read None])
        | _ => ([], [])
        end) /\
  (forall values v vs,
     lookup values dt = Ok (v :: vs) ->
     ReadWrite.submit_types true unit_id values [(dt, [logical_address])] =
     Ok match Spec.map dt logical_address write with
        | Spec.Mapped pa fc =>
            ([], [mkSub unit_id fc pa logical_address dt write
                    (Some (ReadWrite.wire_value dt v))])
        | Spec.AddressBelowBase => ([], [])
        | Spec.UnsupportedWriteTarget => ([ReadWrite.cannot_write dt], [])
        end) /\
  Enum.submit_types unit_id [(dt, (logical_address, logical_address))] =
    match Spec.map dt logical_address read with
    | Spec.Mapped pa fc => [mkSub unit_id fc pa logical_address dt read None]
    | _ => []
    end /\
  (forall values addresses,
     ReadWrite.submit_types false unit_id values [(dt, addresses)] =
     Ok ([], map (fun a => mkSub unit_id (Spec.read_code dt) (a - Spec.base_address dt)
                             a dt read None)
               (filter (fun a => Spec.base_address dt <=? a) addresses))) /\
  (forall net sched ip port,
     logical_address < Spec.base_address dt ->
     ReadWrite.main net sched (single_rw ip port false unit_id dt [logical_address] None) =
     (Ok tt,
      mkWorld
        [ReadWrite.processing_line
           (single_rw ip port false unit_id dt [logical_address] None) unit_id;
         (nl ++ "Done.")%string]
        [])) /\
  (forall net sched ip port v,
     Spec.write_code dt = None ->
     ReadWrite.main net sched
       (single_rw ip port true unit_id dt [logical_address] (Some [Some v])) =
     (Ok tt,
      mkWorld
        [ReadWrite.processing_line
           (single_rw ip port true unit_id dt [logical_address] (Some [Some v])) unit_id;
         ReadWrite.cannot_write dt;
         (nl ++ "Done.")%string]
        [])).
Proof.
  split; [split; destruct dt; reflexivity|].
  split; [repeat split|].
  split.
  { intros values. rewrite spec_map_read.
    destruct dt; simpl;
      match goal with |- context [?x <? 0] => destruct (x <? 0) end; reflexivity. }
  split.
  { intros values v vs Hl. unfold Spec.map.
    destruct dt; simpl; try reflexivity;
      match goal with |- context [?x <? 0] => destruct (x <? 0) end;
      simpl; try reflexivity; rewrite Hl; reflexivity. }
  split.
  { rewrite spec_map_read.
    destruct dt; simpl; rewrite range_incl_single; simpl;
      match goal with |- context [?x <? 0] => destruct (x <? 0) end; reflexivity. }
  split.
  { intros values addresses.
    destruct dt; simpl; rewrite rw_submit_addresses_read; simpl;
      now rewrite app_nil_r. }
  split.
  { intros net sched ip port Hlt.
    destruct dt; simpl in Hlt; unfold ReadWrite.main; simpl;
      match goal with |- context [?x <? 0] =>
        assert (E : (x <? 0) = true) by (apply Z.ltb_lt; lia); rewrite E
      end; reflexivity. }
  { intros net sched ip port v Hw.
    destruct dt; try discriminate; reflexivity. }
Qed.

(** ** Validation of a write run *)

Lemma index_skipn {A : Type} (l : list A) (i : nat) :
  match index l i with
  | Ok x => skipn i l = x :: skipn (S i) l
  | Raise _ => skipn i l = []
  end.
Proof.
  unfold index. revert l. induction i as [|i IH]; intros [|a l]; simpl; auto.
  apply IH.
Qed.

Lemma data_type_eqb_eq (a b : data_type) : data_type_eqb a b = true <-> a = b.
Proof. destruct a, b; simpl; split; congruence. Qed.

Lemma data_type_eqb_refl (a : data_type) : data_type_eqb a a = true.
Proof. now apply data_type_eqb_eq. Qed.

Lemma value_ok_accepted (dt : data_type) (v : Z) :
  Spec.value_ok dt (Some v) = true <-> accepted_value dt v.
Proof.
  unfold accepted_value. destruct dt; simpl.
  - rewrite in_range_spec. split; [intros H; split; [discriminate | auto] | intros [_ H]; auto].
  - split; [intros _; split; discriminate | reflexivity].
  - rewrite mem_spec. simpl. split.
    + intros H. split; [intros _; lia | discriminate].
    + intros [H _]. specialize (H eq_refl). lia.
  - split; [intros _; split; discriminate | reflexivity].
Qed.

(** The two checks of the loop body pass exactly on an acceptable value. *)
Lemma checks_pass (dt : data_type) (val : Z) :
  (data_type_eqb dt coil && negb (mem val [0; 1]) = false /\
   data_type_eqb dt hr && negb (in_range 0 65535 val) = false) <->
  accepted_value dt val.
Proof.
  rewrite <- value_ok_accepted.
  destruct dt; simpl;
    try (destruct (in_range 0 65535 val)); try (destruct (mem val [0; 1]));
    simpl; intuition congruence.
Qed.

Section Validation.

Variable value_list : list (option Z).

Lemma check_values_inv (dt : data_type) (addresses : list Z) :
  forall idx acc r,
    ReadWrite.check_values dt addresses value_list idx acc = Ok r ->
    exists ints,
      skipn idx value_list =
        map Some ints ++ skipn (idx + List.length addresses) value_list /\
      List.length ints = List.length addresses /\
      Forall (accepted_value dt) ints /\
      r = (acc ++ ints, (idx + List.length addresses)%nat).
Proof.
  induction addresses as [|a rest IH]; intros idx acc r H; simpl in H.
  - injection H as <-. exists []. simpl. rewrite Nat.add_0_r, app_nil_r. auto.
  - pose proof (index_skipn value_list idx) as Hs.
    destruct (index value_list idx) as [[val|]|x]; simpl in H; try discriminate.
    destruct (data_type_eqb dt coil && negb (mem val [0; 1])) eqn:E1; [discriminate|].
    destruct (data_type_eqb dt hr && negb (in_range 0 65535 val)) eqn:E2; [discriminate|].
    apply IH in H as (ints & Hk & Hl & Hf & ->).
    exists (val :: ints). simpl.
    replace (idx + S (List.length rest))%nat with (S idx + List.length rest)%nat by lia.
    rewrite Hs, Hk, <- app_assoc. simpl.
    repeat split; try congruence.
    constructor; [|assumption]. apply checks_pass. auto.
Qed.

Lemma check_values_ok (dt : data_type) (addresses : list Z) :
  forall idx acc ints rest,
    skipn idx value_list = map Some ints ++ rest ->
    List.length ints = List.length addresses ->
    Forall (accepted_value dt) ints ->
    ReadWrite.check_values dt addresses value_list idx acc =
      Ok (acc ++ ints, (idx + List.length addresses)%nat) /\
    skipn (idx + List.length addresses) value_list = rest.
Proof.
  induction addresses as [|a more IH]; intros idx acc ints rest Hs Hl Hf.
  - destruct ints; [|discriminate]. simpl in *.
    now rewrite Nat.add_0_r, app_nil_r.
  - destruct ints as [|val ints]; [discriminate|]. simpl in *.
    pose proof (index_skipn value_list idx) as Hi.
    destruct (index value_list idx) as [item|x]; [|rewrite Hi in Hs; discriminate].
    rewrite Hi in Hs. injection Hs as -> Hs. simpl.
    inversion Hf as [|? ? Hv Hf']; subst.
    apply checks_pass in Hv as [E1 E2]. rewrite E1, E2.
    destruct (IH (S idx) (acc ++ [val]) ints rest Hs) as [Hc Hr]; [lia | assumption |].
    rewrite Hc, <- app_assoc. simpl.
    replace (idx + S (List.length more))%nat with (S idx + List.length more)%nat by lia.
    auto.
Qed.

Lemma map_values_inv (data_types : dict (list Z)) :
  forall idx values r,
    ReadWrite.map_values data_types value_list idx values = Ok r ->
    exists added,
      r = values ++ added /\
      Forall2 accepted data_types added /\
      skipn idx value_list =
        map Some (List.concat (map snd added)) ++
        skipn (idx + ReadWrite.total_addresses data_types) value_list.
Proof.
  induction data_types as [|[dt addresses] rest IH]; intros idx values r H; simpl in H.
  - injection H as <-. exists []. simpl.
    rewrite app_nil_r. unfold ReadWrite.total_addresses. simpl.
    now rewrite Nat.add_0_r.
  - apply rbind_inv in H as (c & Hc & H).
    apply check_values_inv in Hc as (ints & Hk & Hl & Hf & ->). simpl in H.
    apply IH in H as (added & -> & Hfa & Hs).
    exists ((dt, ints) :: added). simpl.
    rewrite <- app_assoc. simpl. split; [reflexivity|]. split.
    + constructor; [|assumption]. repeat split; assumption.
    + rewrite Hk, Hs, map_app, <- app_assoc.
      unfold ReadWrite.total_addresses. simpl.
      now rewrite Nat.add_assoc.
Qed.

Lemma map_values_ok (data_types : dict (list Z)) :
  forall idx values added rest,
    Forall2 accepted data_types added ->
    skipn idx value_list = map Some (List.concat (map snd added)) ++ rest ->
    ReadWrite.map_values data_types value_list idx values = Ok (values ++ added).
Proof.
  induction data_types as [|[dt addresses] more IH];
    intros idx values added rest Hfa Hs; inversion Hfa as [|? [k ints] ? added' Ha Hfa']; subst.
  - simpl. now rewrite app_nil_r.
  - simpl in *. destruct Ha as (Hk & Hl & Hf). simpl in *. subst k.
    rewrite map_app, <- app_assoc in Hs.
    destruct (check_values_ok dt addresses idx [] ints _ Hs Hl Hf) as [Hc Hr].
    rewrite Hc. simpl.
    rewrite (IH _ (values ++ [(dt, ints)]) added' rest Hfa' Hr).
    now rewrite <- app_assoc.
Qed.

End Validation.

Lemma all_ok_chunk (dt : data_type) (addresses : list Z) (types : list data_type) :
  forall l,
    Spec.all_ok (map (fun _ => dt) addresses ++ types) l = true <->
    exists ints rest,
      l = map Some ints ++ rest /\ List.length ints = List.length addresses /\
      Forall (accepted_value dt) ints /\ Spec.all_ok types rest = true.
Proof.
  induction addresses as [|a more IH]; intros l; simpl.
  - split.
    + intros H. exists [], l. auto.
    + intros (ints & rest & -> & Hl & _ & H). destruct ints; [assumption | discriminate].
  - destruct l as [|item l].
    + split; [discriminate|].
      intros (ints & rest & Hl & Hn & _). destruct ints; discriminate.
    + rewrite andb_true_iff, IH. split.
      * intros (Hv & ints & rest & -> & Hn & Hf & Hr).
        destruct item as [v|]; [|discriminate].
        exists (v :: ints), rest. simpl. repeat split; auto.
        constructor; [now apply value_ok_accepted | assumption].
      * intros (ints & rest & Hl & Hn & Hf & Hr).
        destruct ints as [|v ints]; [discriminate|].
        simpl in Hl. injection Hl as -> ->. inversion Hf; subst.
        split; [now apply value_ok_accepted|].
        exists ints, rest. simpl in Hn. auto.
Qed.

(** The values are valid exactly when they split, in order, into one
    accepted list per selected data type. *)
Lemma values_valid_iff (data_types : dict (list Z)) :
  forall l,
    Spec.values_valid data_types l = true <->
    exists added,
      Forall2 accepted data_types added /\ l = map Some (List.concat (map snd added)).
Proof.
  unfold Spec.values_valid.
  induction data_types as [|[dt addresses] rest IH]; intros l; simpl.
  - split.
    + intros H. exists []. destruct l; [auto | discriminate].
    + intros (added & Hf & ->). inversion Hf. reflexivity.
  - rewrite all_ok_chunk. split.
    + intros (ints & tl & -> & Hn & Hf & Hr).
      apply IH in Hr as (added & Hfa & ->).
      exists ((dt, ints) :: added). simpl. rewrite map_app. split; [|reflexivity].
      constructor; [|assumption]. repeat split; assumption.
    + intros (added & Hfa & ->).
      inversion Hfa as [|? [k ints] ? added' (Hk & Hn & Hf) Hfa']; subst. simpl in *.
      exists ints, (map Some (List.concat (map snd added'))).
      rewrite map_app. repeat split; try assumption.
      apply IH. eauto.
Qed.

Lemma accepted_total (data_types added : dict (list Z)) :
  Forall2 accepted data_types added ->
  List.length (List.concat (map snd added)) = ReadWrite.total_addresses data_types.
Proof.
  unfold ReadWrite.total_addresses.
  induction 1 as [|[dt addresses] [k ints] ? ? (_ & Hn & _) _ IH]; simpl; [reflexivity|].
  simpl in Hn. rewrite length_app. congruence.
Qed.

Lemma validate_accepts (data_types : dict (list Z)) (value_list : list (option Z)) :
  Spec.values_valid data_types value_list = true ->
  exists values,
    ReadWrite.validate true data_types (Some value_list) = Ok values /\
    Forall2 accepted data_types values /\
    map Some (List.concat (map snd values)) = value_list.
Proof.
  intros H. apply values_valid_iff in H as (added & Hfa & ->).
  exists added. split; [|auto].
  unfold ReadWrite.validate.
  rewrite length_map, (accepted_total _ _ Hfa), Nat.eqb_refl. simpl.
  apply (map_values_ok _ data_types 0 [] added []); [assumption|].
  simpl. now rewrite app_nil_r.
Qed.

Lemma validate_rejects (data_types : dict (list Z)) (value_list : list (option Z)) :
  Spec.values_valid data_types value_list = false ->
  exists x, ReadWrite.validate true data_types (Some value_list) = Raise x.
Proof.
  intros H.
  destruct (ReadWrite.validate true data_types (Some value_list)) as [values|x] eqn:E;
    [|eauto].
  exfalso. unfold ReadWrite.validate in E.
  destruct (List.length value_list =? ReadWrite.total_addresses data_types)%nat eqn:El;
    simpl in E; [|discriminate].
  apply Nat.eqb_eq in El.
  apply map_values_inv in E as (added & _ & Hfa & Hs). simpl in Hs.
  rewrite (skipn_all2 value_list) in Hs by lia. rewrite app_nil_r in Hs.
  assert (Spec.values_valid data_types value_list = true)
    by (apply values_valid_iff; eauto).
  congruence.
Qed.

(** A run whose value count differs from the address count is not valid. *)
Lemma count_mismatch_invalid (data_types : dict (list Z)) (value_list : list (option Z)) :
  List.length value_list <> ReadWrite.total_addresses data_types ->
  Spec.values_valid data_types value_list = false.
Proof.
  intros Hn. destruct (Spec.values_valid data_types value_list) eqn:E; [|reflexivity].
  apply values_valid_iff in E as (added & Hfa & ->).
  rewrite length_map, (accepted_total _ _ Hfa) in Hn. contradiction.
Qed.

Lemma lookup_accepted (data_types values : dict (list Z)) :
  NoDup (map fst data_types) ->
  Forall2 accepted data_types values ->
  forall dt addresses,
    In (dt, addresses) data_types ->
    exists vs,
      lookup values dt = Ok vs /\ List.length vs = List.length addresses /\
      Forall (accepted_value dt) vs.
Proof.
  intros Hnd Hfa. induction Hfa as [|[k addrs] [k' vs] ds vl (Hk & Hn & Hf) _ IH];
    intros dt addresses Hin; [contradiction|].
  simpl in *. subst k'. inversion Hnd as [|? ? Hnotin Hnd']; subst.
  destruct Hin as [[= -> ->] | Hin].
  - exists vs. rewrite data_type_eqb_refl. auto.
  - assert (Hne : data_type_eqb dt k = false).
    { destruct (data_type_eqb dt k) eqn:E; [|reflexivity].
      apply data_type_eqb_eq in E. subst k. exfalso. apply Hnotin.
      change dt with (fst (dt, addresses)). now apply in_map. }
    rewrite Hne. now apply IH.
Qed.

Lemma NoDup_data_types_of (a : ReadWrite.args) :
  NoDup (map fst (ReadWrite.data_types_of a)).
Proof.
  unfold ReadWrite.data_types_of.
  destruct (ReadWrite.a_hr a), (ReadWrite.a_coil a), (ReadWrite.a_ir a), (ReadWrite.a_di a);
    simpl; repeat constructor; simpl; intuition discriminate.
Qed.

(** The write dispatch of one data type, once its values are there. *)
Lemma rw_submit_addresses_write (unit_id : Z) (dt : data_type) (base fc : Z)
  (values : dict (list Z)) (vs : list Z) :
  lookup values dt = Ok vs ->
  forall addresses idx,
    (idx + List.length addresses <= List.length vs)%nat ->
    ReadWrite.submit_addresses true unit_id dt base fc values idx addresses =
    Ok (map (fun p => mkSub unit_id fc (fst p - base) (fst p) dt write
                        (Some (ReadWrite.wire_value dt (snd p))))
          (filter (fun p => base <=? fst p) (combine addresses (skipn idx vs)))).
Proof.
  intros Hl. induction addresses as [|a rest IH]; intros idx Hn; simpl; [reflexivity|].
  simpl in Hn.
  pose proof (index_skipn vs idx) as Hi.
  destruct (index vs idx) as [v|x] eqn:Ei.
  - rewrite Hi. simpl. rewrite Hl. simpl. rewrite Ei. simpl.
    rewrite (IH (S idx)) by lia.
    destruct (Z.ltb_spec (a - base) 0) as [Hlt|Hge].
    + assert (E : (base <=? a) = false) by (apply Z.leb_gt; lia). now rewrite E.
    + assert (E : (base <=? a) = true) by (apply Z.leb_le; lia). now rewrite E.
  - apply (f_equal (@List.length Z)) in Hi. rewrite length_skipn in Hi. simpl in Hi. lia.
Qed.

Lemma all_ok_pointwise (types : list data_type) :
  forall l i dt item,
    Spec.all_ok types l = true ->
    nth_error types i = Some dt -> nth_error l i = Some item ->
    Spec.value_ok dt item = true.
Proof.
  induction types as [|t types IH]; intros l i dt item H Ht Hl.
  - destruct i; discriminate.
  - destruct l as [|x l]; [discriminate|]. simpl in H.
    apply andb_true_iff in H as [Hx Hr].
    destruct i as [|i]; simpl in *.
    + congruence.
    + eapply IH; eassumption.
Qed.

(** C7.  In a write run the values are checked before anything else
    happens.  When their number differs from the number of selected
    addresses, or the value at some position is not an integer, is a coil
    value other than 0 and 1 or a holding-register value outside [0,65535],
    [main] ends with an exception, having printed nothing and made no socket
    call.  When the values are valid, the validation hands each data type
    its values in order, and the task submitted for a coil address carries
    0xFF00 for the value 1 and 0x0000 for the value 0. *)
Theorem write_validation (net : nat -> nat -> env) (sched : nat -> list nat)
  (a : ReadWrite.args) (value_list : list (option Z)) :
  ReadWrite.a_write a = true ->
  ReadWrite.a_value a = Some value_list ->
  ((List.length value_list <> ReadWrite.total_addresses (ReadWrite.data_types_of a) ->
      Spec.values_valid (ReadWrite.data_types_of a) value_list = false) /\
   (forall i dt item,
      nth_error (Spec.selected_types (ReadWrite.data_types_of a)) i = Some dt ->
      nth_error value_list i = Some item ->
      Spec.value_ok dt item = false ->
      Spec.values_valid (ReadWrite.data_types_of a) value_list = false) /\
   (Spec.values_valid (ReadWrite.data_types_of a) value_list = false ->
      exists x, ReadWrite.main net sched a = (Raise x, silent))) /\
  (Spec.values_valid (ReadWrite.data_types_of a) value_list = true ->
     exists values,
       ReadWrite.validate true (ReadWrite.data_types_of a) (Some value_list) = Ok values /\
       Forall2 accepted (ReadWrite.data_types_of a) values /\
       map Some (List.concat (map snd values)) = value_list /\
       (forall unit_id addresses,
          In (coil, addresses) (ReadWrite.data_types_of a) ->
          exists vs,
            lookup values coil = Ok vs /\
            List.length vs = List.length addresses /\
            Forall (fun v => v = 0 \/ v = 1) vs /\
            ReadWrite.submit_addresses true unit_id coil 1 5 values 0 addresses =
            Ok (map (fun p => mkSub unit_id 5 (fst p - 1) (fst p) coil write
                                (Some (Spec.coil_wire (snd p))))
                  (filter (fun p => 1 <=? fst p) (combine addresses vs))))) /\
  (Spec.coil_wire 1 = 65280 /\ Spec.coil_wire 0 = 0 /\
   ReadWrite.build_modbus_request 1 1 5 0 (Some (Spec.coil_wire 1)) 1 =
     Ok (of_ints [0; 1; 0; 0; 0; 6; 1; 5; 0; 0; 255; 0])).
Proof.
  intros Hw Hv. split; [split; [|split]|split].
  - apply count_mismatch_invalid.
  - intros i dt item Ht Hl Hbad.
    destruct (Spec.values_valid (ReadWrite.data_types_of a) value_list) eqn:E;
      [|reflexivity].
    unfold Spec.values_valid in E.
    rewrite (all_ok_pointwise _ _ i dt item E Ht Hl) in Hbad. discriminate.
  - intros Hbad. apply validate_rejects in Hbad as [x Hx].
    unfold ReadWrite.main. rewrite Hw, Hv, andb_false_r, andb_true_r.
    destruct (ReadWrite.a_read a); [eexists; reflexivity|].
    destruct (ReadWrite.data_types_of a) as [|d ds]; [eexists; reflexivity|].
    rewrite Hx. eexists; reflexivity.
  - intros Hok. apply validate_accepts in Hok as (values & Hval & Hfa & Hc).
    exists values. repeat split; try assumption.
    intros unit_id addresses Hin.
    destruct (lookup_accepted _ _ (NoDup_data_types_of a) Hfa coil addresses Hin)
      as (vs & Hl & Hn & Hf).
    exists vs. repeat split; try assumption.
    + eapply Forall_impl; [|exact Hf]. intros v [H _]. now apply H.
    + rewrite (rw_submit_addresses_write unit_id coil 1 5 values vs Hl addresses 0)
        by (simpl; lia).
      reflexivity.
  - repeat split.
Qed.

Lemma write_validation_witness :
  ReadWrite.a_write (single_rw "10.0.0.1" 502 true 1 coil [1; 2] (Some [Some 1; Some 2])) = true /\
  Spec.values_valid
    (ReadWrite.data_types_of
       (single_rw "10.0.0.1" 502 true 1 coil [1; 2] (Some [Some 1; Some 2])))
    [Some 1; Some 2] = false /\
  exists x,
    ReadWrite.main (fun _ _ => answering 1 []) (fun _ => [])
      (single_rw "10.0.0.1" 502 true 1 coil [1; 2] (Some [Some 1; Some 2])) =
    (Raise x, silent).
Proof.
  split; [reflexivity|]. split; [reflexivity|].
  exact (proj2 (proj2 (proj1
    (write_validation (fun _ _ => answering 1 []) (fun _ => [])
       (single_rw "10.0.0.1" 502 true 1 coil [1; 2] (Some [Some 1; Some 2]))
       [Some 1; Some 2] eq_refl eq_refl))) eq_refl).
Defined.

(** A write of 1 and 0 to coils 1 and 2 of slave 1, end to end: the two
    requests carry FF 00 and 00 00, and both echoes are reported written. *)
Example write_two_coils_end_to_end :
  ReadWrite.main (fun _ _ => answering 1 (of_ints [0; 1; 0; 0; 0; 6; 1; 5; 0; 0; 255; 0]))
    (fun _ => [])
    (single_rw "10.0.0.1" 502 true 1 coil [1; 2] (Some [Some 1; Some 0])) =
  (Ok tt,
   mkWorld
     [(nl ++ "Processing Slave ID 1 at 10.0.0.1:502")%string;
      "Slave 1 - Wrote to COIL[1]"%string;
      "Slave 1 - Wrote to COIL[2]"%string;
      (nl ++ "Done.")%string]
     [EvSocket; EvConnect;
      EvSend (of_ints [0; 1; 0; 0; 0; 6; 1; 5; 0; 0; 255; 0]); EvRecv; EvClose;
      EvSocket; EvConnect;
      EvSend (of_ints [0; 1; 0; 0; 0; 6; 1; 5; 0; 1; 0; 0]); EvRecv; EvClose]).
Proof. vm_compute. reflexivity. Qed.

(** The end-to-end read of the specification: holding register 40001 of a
    device that answers function code 3, byte count 2, 00 2A reads 42. *)
Example read_holding_register_end_to_end :
  ReadWrite.main (fun _ _ => answering 1 (of_ints [0; 1; 0; 0; 0; 5; 1; 3; 2; 0; 42]))
    (fun _ => [])
    (single_rw "10.0.0.1" 502 false 1 hr [40001] None) =
  (Ok tt,
   mkWorld
     [(nl ++ "Processing Slave ID 1 at 10.0.0.1:502")%string;
      "Slave 1 - HR[40001]: 42"%string;
      (nl ++ "Done.")%string]
     [EvSocket; EvConnect;
      EvSend (of_ints [0; 1; 0; 0; 0; 6; 1; 3; 0; 0; 0; 1]); EvRecv; EvClose]).
Proof. vm_compute. reflexivity. Qed.

(** ** The specification's examples, run on the code *)

Example dispatch_holding_register_40007 :
  ReadWrite.submit_types false 1 [] [(hr, [40007])] =
    Ok ([], [mkSub 1 3 6 40007 hr read None]) /\
  Enum.submit_types 1 [(hr, (40007, 40007))] = [mkSub 1 3 6 40007 hr read None].
Proof. split; reflexivity. Qed.

Example dispatch_write_coil_1 :
  ReadWrite.validate true [(coil, [1])] (Some [Some 1]) = Ok [(coil, [1])] /\
  ReadWrite.submit_types true 1 [(coil, [1])] [(coil, [1])] =
    Ok ([], [mkSub 1 5 0 1 coil write (Some 65280)]).
Proof. split; reflexivity. Qed.

Example dispatch_write_input_register_30001 :
  ReadWrite.submit_types true 1 [(ir, [7])] [(ir, [30001])] =
    Ok (["Cannot write to IR"%string], []).
Proof. reflexivity. Qed.

Example dispatch_skips_address_below_base :
  ReadWrite.submit_types false 1 [] [(ir, [30000; 30001])] =
    Ok ([], [mkSub 1 4 0 30001 ir read None]).
Proof. reflexivity. Qed.

(** A connection timeout for input register 30005 in a batch of three:
    the two other addresses are reported, 30005 leaves no line. *)
Example timeout_in_a_batch :
  lines_of
    (ReadWrite.run_batch
       [(answering 1 (of_ints [0; 1; 0; 0; 0; 5; 1; 4; 2; 0; 7]),
         mkSub 1 4 3 30004 ir read None);
        (failing_at AtConnect 2 TimeoutError, mkSub 1 4 4 30005 ir read None);
        (answering 3 (of_ints [0; 1; 0; 0; 0; 5; 1; 4; 2; 1; 0]),
         mkSub 1 4 5 30006 ir read None)]
       [] []) =
  ["Slave 1 - IR[30004]: 7"%string; "Slave 1 - IR[30006]: 256"%string].
Proof. vm_compute. reflexivity. Qed.

(** * Beyond the claims *)

(** ** The encoders, characterised *)

(** X1.  The read/write encoder returns a frame exactly when the transaction
    id, unit id and address fit their fields and either a value within 16
    bits comes with function code 5 or 6, or no value comes with a function
    code 1 to 4 and a count within 16 bits; the frame is then the twelve
    bytes: transaction id, 00 00, 00 06, unit id, function code, address,
    value or count, big-endian. *)
Theorem rw_encoder_accepts_iff
  (trans_id unit_id f address : Z) (value : option Z) (count : Z) (frame : bytes) :
  ReadWrite.build_modbus_request trans_id unit_id f address value count = Ok frame <->
  (0 <= trans_id <= 65535 /\ 0 <= unit_id <= 255 /\ 0 <= address <= 65535) /\
  match value with
  | Some v => In f [5; 6] /\ 0 <= v <= 65535 /\ frame = frame12 trans_id unit_id f address v
  | None =>
      In f [1; 2; 3; 4] /\ 0 <= count <= 65535 /\
      frame = frame12 trans_id unit_id f address count
  end.
Proof.
  split.
  - intros H. apply rw_build_inv in H as ((Rt & Ru & Rf & Ra) & last & Rl & Hv & ->).
    split; [auto|].
    destruct value as [v|]; destruct Hv as [-> Hm]; apply mem_spec in Hm;
      repeat split; auto; lia.
  - intros ((Rt & Ru & Ra) & H). unfold ReadWrite.build_modbus_request.
    destruct value as [v|]; destruct H as (Hin & Rl & ->);
      apply mem_spec in Hin as Hm; rewrite Hm;
      rewrite pack_HHHBBH_ok by (simpl in Hin; lia);
      simpl; rewrite pack_H_ok by assumption; reflexivity.
Qed.

(** X2.  The enumeration encoder returns a frame exactly when the transaction
    id, unit id, function code and address fit their fields (and the count,
    for a function code 1 to 4): twelve bytes for a read function code, and
    for any other function code the ten bytes that stop after the address. *)
Theorem enum_encoder_accepts_iff (trans_id unit_id f address count : Z) (frame : bytes) :
  Enum.build_modbus_request trans_id unit_id f address count = Ok frame <->
  (0 <= trans_id <= 65535 /\ 0 <= unit_id <= 255 /\ 0 <= f <= 255 /\
   0 <= address <= 65535) /\
  if mem f [1; 2; 3; 4]
  then 0 <= count <= 65535 /\ frame = frame12 trans_id unit_id f address count
  else frame = frame10 trans_id unit_id f address.
Proof.
  unfold Enum.build_modbus_request. split.
  - intros H. apply rbind_inv in H as (hd & Hh & H).
    apply pack_HHHBBH_inv in Hh as ((Rt & _ & _ & Ru & Rf & Ra) & ->).
    split; [auto|].
    destruct (mem f [1; 2; 3; 4]).
    + apply rbind_inv in H as (tl & Ht & H). apply pack_H_inv in Ht as (Rc & ->).
      injection H as <-. auto.
    + injection H as <-. reflexivity.
  - intros ((Rt & Ru & Rf & Ra) & H).
    rewrite pack_HHHBBH_ok by lia. simpl.
    destruct (mem f [1; 2; 3; 4]).
    + destruct H as (Rc & ->). rewrite pack_H_ok by assumption. reflexivity.
    + subst frame. reflexivity.
Qed.

(** ** The decoders, characterised *)

(** X3.  Neither decoder looks at the transaction id, the protocol id, the
    length field or the unit id: two responses that differ only in their
    first seven bytes decode alike. *)
Theorem decoders_ignore_header_fields
  (a1 a0 b1 b0 c1 c0 d a1' a0' b1' b0' c1' c0' d' f : byte) (rest : bytes) :
  ReadWrite.parse_modbus_response (a1 :: a0 :: b1 :: b0 :: c1 :: c0 :: d :: f :: rest) =
  ReadWrite.parse_modbus_response (a1' :: a0' :: b1' :: b0' :: c1' :: c0' :: d' :: f :: rest) /\
  Enum.parse_modbus_response (a1 :: a0 :: b1 :: b0 :: c1 :: c0 :: d :: f :: rest) =
  Enum.parse_modbus_response (a1' :: a0' :: b1' :: b0' :: c1' :: c0' :: d' :: f :: rest).
Proof.
  split.
  - now rewrite !rw_parse_long.
  - destruct rest as [|n more]; [reflexivity|]. now rewrite !enum_parse_long.
Qed.

(** X4.  On a response of nine bytes or more whose function code is neither 5
    nor 6 the two decoders return the same thing; for a function code 1 to 4
    it is the bytes that follow the byte count [n], as many as [n] says or as
    many as there are: [min n (len - 9)] bytes, at most 255. *)
Theorem decoders_agree_on_read_responses
  (a1 a0 b1 b0 c1 c0 d f n : byte) (more : bytes) :
  mem (byte_val f) [5; 6] = false ->
  ReadWrite.parse_modbus_response (a1 :: a0 :: b1 :: b0 :: c1 :: c0 :: d :: f :: n :: more) =
  Enum.parse_modbus_response (a1 :: a0 :: b1 :: b0 :: c1 :: c0 :: d :: f :: n :: more) /\
  (mem (byte_val f) [1; 2; 3; 4] = true ->
   ReadWrite.parse_modbus_response (a1 :: a0 :: b1 :: b0 :: c1 :: c0 :: d :: f :: n :: more) =
     Ok (Some (firstn (Z.to_nat (byte_val n)) more)) /\
   List.length (firstn (Z.to_nat (byte_val n)) more) =
     Nat.min (Z.to_nat (byte_val n)) (List.length more) /\
   (List.length (firstn (Z.to_nat (byte_val n)) more) <= 255)%nat).
Proof.
  intros H56. rewrite rw_parse_long, enum_parse_long, H56. split.
  - destruct (128 <=? byte_val f); [reflexivity|].
    destruct (mem (byte_val f) [1; 2; 3; 4]); reflexivity.
  - intros H14. rewrite (read_code_below_128 _ H14), H14.
    split; [reflexivity|]. rewrite length_firstn. split; [reflexivity|].
    pose proof (byte_val_range n). lia.
Qed.

Lemma decoders_agree_on_read_responses_witness :
  mem (byte_val (mk_byte 3)) [5; 6] = false /\
  ReadWrite.parse_modbus_response (of_ints [0; 1; 0; 0; 0; 5; 1; 3; 4; 0; 42]) =
  Enum.parse_modbus_response (of_ints [0; 1; 0; 0; 0; 5; 1; 3; 4; 0; 42]).
Proof.
  split; [reflexivity|].
  exact (proj1 (decoders_agree_on_read_responses
                  (mk_byte 0) (mk_byte 1) (mk_byte 0) (mk_byte 0) (mk_byte 0) (mk_byte 5)
                  (mk_byte 1) (mk_byte 3) (mk_byte 4) (of_ints [0; 42]) eq_refl)).
Defined.

(** ** The worker on every network *)

Lemma trans_id_fits (ident : Z) : 0 <= ident mod 65535 <= 65535.
Proof. pose proof (Z.mod_pos_bound ident 65535). lia. Qed.

(** The request of a task is built exactly when its fields fit. *)
Lemma rw_request_of_iff (trans_id : Z) (t : submission) (request : bytes) :
  0 <= trans_id <= 65535 ->
  ReadWrite.request_of trans_id (s_unit_id t) (s_function_code t) (s_protocol_address t)
    (s_operation t) (s_value t) = Ok request <->
  rw_encodable t = true /\
  request = frame12 trans_id (s_unit_id t) (s_function_code t) (s_protocol_address t)
              (last_field t).
Proof.
  intros Rt. destruct t as [u fc pa la dt op value]. unfold rw_encodable, last_field. simpl.
  assert (Hr : forall v last,
            (v = None /\ last = 1 \/ v = Some last) ->
            ReadWrite.build_modbus_request trans_id u fc pa v 1 = Ok request <->
            (in_range 0 255 u && in_range 0 65535 pa &&
             match v with
             | Some x => mem fc [5; 6] && in_range 0 65535 x
             | None => mem fc [1; 2; 3; 4]
             end = true) /\
            request = frame12 trans_id u fc pa last).
  { intros v last Hv. split.
    - intros H. apply rw_build_inv in H as ((_ & Ru & Rf & Ra) & l & Rl & Hl & ->).
      apply in_range_spec in Ru, Ra, Rl.
      destruct v as [x|]; destruct Hl as [-> Hm]; rewrite Ru, Ra, Hm; simpl.
      + destruct Hv as [[? _] | [= ->]]; [discriminate|]. rewrite Rl. auto.
      + destruct Hv as [[_ ->] | ?]; [auto | discriminate].
    - intros [H ->]. apply andb_true_iff in H as [H Hc].
      apply andb_true_iff in H as [Ru Ra]. apply in_range_spec in Ru, Ra.
      unfold ReadWrite.build_modbus_request.
      destruct v as [x|].
      + apply andb_true_iff in Hc as [Hm Rx]. apply in_range_spec in Rx.
        destruct Hv as [[? _] | [= ->]]; [discriminate|].
        rewrite Hm. apply mem_spec in Hm.
        rewrite pack_HHHBBH_ok by (simpl in Hm; lia). simpl.
        rewrite pack_H_ok by assumption. reflexivity.
      + destruct Hv as [[_ ->] | ?]; [|discriminate].
        rewrite Hc. apply mem_spec in Hc.
        rewrite pack_HHHBBH_ok by (simpl in Hc; lia). reflexivity. }
  destruct op; simpl.
  - specialize (Hr None 1 (or_introl (conj eq_refl eq_refl))). destruct value; exact Hr.
  - destruct value as [x|].
    + exact (Hr (Some x) x (or_intror eq_refl)).
    + exact (Hr None 1 (or_introl (conj eq_refl eq_refl))).
Qed.

Lemma enum_request_iff (trans_id : Z) (t : submission) (request : bytes) :
  0 <= trans_id <= 65535 ->
  mem (s_function_code t) [1; 2; 3; 4] = true ->
  Enum.build_modbus_request trans_id (s_unit_id t) (s_function_code t)
    (s_protocol_address t) 1 = Ok request <->
  enum_encodable t = true /\
  request = frame12 trans_id (s_unit_id t) (s_function_code t) (s_protocol_address t) 1.
Proof.
  intros Rt Hm. destruct t as [u fc pa la dt op value]. unfold enum_encodable. simpl in *.
  unfold Enum.build_modbus_request. split.
  - intros H. apply rbind_inv in H as (hd & Hh & H).
    apply pack_HHHBBH_inv in Hh as ((_ & _ & _ & Ru & Rf & Ra) & ->).
    rewrite Hm in H. simpl in H. injection H as <-.
    apply in_range_spec in Ru, Rf, Ra. rewrite Ru, Rf, Ra. auto.
  - intros [H ->]. apply andb_true_iff in H as [H Ra].
    apply andb_true_iff in H as [Ru Rf]. apply in_range_spec in Ru, Rf, Ra.
    rewrite pack_HHHBBH_ok by lia. simpl. rewrite Hm. reflexivity.
Qed.

Lemma rw_parse_raises_Exception (response : bytes) (x : exn) :
  ReadWrite.parse_modbus_response response = Raise x -> is_Exception x = true.
Proof. intros H. apply rw_parse_raises_iff in H as (-> & _). reflexivity. Qed.

Lemma enum_parse_never_raises (response : bytes) (x : exn) :
  Enum.parse_modbus_response response <> Raise x.
Proof. destruct (enum_parse_total response) as [data H]. congruence. Qed.

Ltac close_shape :=
  simpl; repeat split; simpl; intros;
  try lia; try discriminate; try congruence; try contradiction;
  try first [ exists []; eexists; reflexivity | do 2 eexists; reflexivity ].

(** What every run of the read/write worker looks like. *)
Lemma rw_worker_shape (e : env) (t : submission) :
  (List.length (rw_lines e t) <= 1)%nat /\
  (exists request suffix,
     rw_events e t ++ suffix = [EvSocket; EvConnect; EvSend request; EvRecv; EvClose]) /\
  (rw_lines e t <> [] -> rw_socket e t = SockClosed /\ closes (rw_events e t) = 1%nat) /\
  (well_behaved e = true -> rw_outcome e t = Ok tt).
Proof.
  destruct t as [u fc pa la dt op value]. unfold well_behaved. unfold_worker.
  destruct (on_connect e) as [[]|x1]; simpl;
    [|destruct (is_Exception x1); close_shape].
  destruct (ReadWrite.request_of _ _ _ _ _ _) as [request|x2] eqn:B; simpl;
    [|rewrite (rw_request_raises _ _ _ _ _ _ _ B); close_shape].
  destruct (on_sendall e) as [[]|x3]; simpl;
    [|destruct (is_Exception x3); close_shape].
  destruct (on_recv e) as [response|x4]; simpl;
    [|destruct (is_Exception x4); close_shape].
  destruct (ReadWrite.parse_modbus_response response) as [data|x5] eqn:P; simpl;
    [|rewrite (rw_parse_raises_Exception _ _ P); close_shape].
  destruct data as [[|b [|b' more]]|], op, dt; close_shape.
Qed.

Lemma enum_worker_shape (e : env) (t : submission) :
  (List.length (enum_lines e t) <= 1)%nat /\
  (exists request suffix,
     enum_events e t ++ suffix = [EvSocket; EvConnect; EvSend request; EvRecv; EvClose]) /\
  (enum_lines e t <> [] -> enum_socket e t = SockClosed /\ closes (enum_events e t) = 1%nat) /\
  (well_behaved e = true -> enum_outcome e t = Ok tt).
Proof.
  destruct t as [u fc pa la dt op value]. unfold well_behaved. unfold_worker.
  destruct (on_connect e) as [[]|x1]; simpl;
    [|destruct (is_Exception x1); close_shape].
  destruct (Enum.build_modbus_request _ _ _ _ _) as [request|x2] eqn:B; simpl;
    [|rewrite (enum_build_raises _ _ _ _ _ _ B); close_shape].
  destruct (on_sendall e) as [[]|x3]; simpl;
    [|destruct (is_Exception x3); close_shape].
  destruct (on_recv e) as [response|x4]; simpl;
    [|destruct (is_Exception x4); close_shape].
  destruct (Enum.parse_modbus_response response) as [data|x5] eqn:P; simpl;
    [|exfalso; exact (enum_parse_never_raises _ _ P)].
  destruct data as [[|b [|b' more]]|], dt; close_shape.
Qed.

Lemma flat_map_length_le {A B : Type} (f : A -> list B) (l : list A) :
  (forall a, List.length (f a) <= 1)%nat ->
  (List.length (flat_map f l) <= List.length l)%nat.
Proof.
  intros H. induction l as [|a l IH]; simpl; [lia|].
  rewrite length_app. specialize (H a). lia.
Qed.

(** X5.  A slave's result list never grows by more lines than tasks were
    submitted: whatever the network does, a worker of either tool appends
    one line or none. *)
Theorem batch_appends_at_most_one_line_per_task
  (work : list (env * submission)) (tr : list event) (rs : list string) :
  (List.length (lines_of (ReadWrite.run_batch work tr rs))
   <= List.length rs + List.length work)%nat /\
  (List.length (lines_of (Enum.run_batch work tr rs))
   <= List.length rs + List.length work)%nat.
Proof.
  rewrite rw_run_batch_lines, enum_run_batch_lines, !length_app. split.
  - pose proof (flat_map_length_le (fun w => rw_lines (fst w) (snd w)) work
                  (fun w => proj1 (rw_worker_shape (fst w) (snd w)))). lia.
  - pose proof (flat_map_length_le (fun w => enum_lines (fst w) (snd w)) work
                  (fun w => proj1 (enum_worker_shape (fst w) (snd w)))). lia.
Qed.

(** X6.  Whatever the network does, the socket calls of a worker of either tool
    are an initial part of: create, connect, send one request, receive once,
    close; and a worker that appended a line has closed its socket. *)
Theorem worker_call_order (e : env) (t : submission) :
  ((exists request suffix,
      rw_events e t ++ suffix = [EvSocket; EvConnect; EvSend request; EvRecv; EvClose]) /\
   (rw_lines e t <> [] -> rw_socket e t = SockClosed /\ closes (rw_events e t) = 1%nat)) /\
  ((exists request suffix,
      enum_events e t ++ suffix = [EvSocket; EvConnect; EvSend request; EvRecv; EvClose]) /\
   (enum_lines e t <> [] -> enum_socket e t = SockClosed /\ closes (enum_events e t) = 1%nat)).
Proof.
  destruct (rw_worker_shape e t) as (_ & Ho & Hc & _).
  destruct (enum_worker_shape e t) as (_ & Ho' & Hc' & _).
  split; split; assumption.
Qed.

Lemma rw_events_when_built (e : env) (t : submission) (request : bytes) :
  on_connect e = Ok tt ->
  ReadWrite.request_of (thread_ident e mod 65535) (s_unit_id t) (s_function_code t)
    (s_protocol_address t) (s_operation t) (s_value t) = Ok request ->
  exists rest, rw_events e t = EvSocket :: EvConnect :: EvSend request :: rest.
Proof.
  destruct t as [u fc pa la dt op value]. simpl. intros Hc Hb.
  unfold_worker. rewrite Hc. simpl. rewrite Hb. simpl.
  destruct (on_sendall e) as [[]|x3]; simpl;
    [|destruct (is_Exception x3); eexists; reflexivity].
  destruct (on_recv e) as [response|x4]; simpl;
    [|destruct (is_Exception x4); eexists; reflexivity].
  destruct (ReadWrite.parse_modbus_response response) as [data|x5]; simpl;
    [|destruct (is_Exception x5); eexists; reflexivity].
  destruct data as [[|b [|b' more]]|], op, dt; simpl; eexists; reflexivity.
Qed.

(** X7.  Once connected, the read/write worker sends a request exactly when the
    fields of its task fit the frame, whatever thread runs it: the request
    is then the twelve bytes of the task with the thread identifier modulo
    65535 as transaction id; otherwise (a slave id above 255, a protocol
    address above 65535) it sends nothing, appends nothing, returns normally
    and leaves its socket open. *)
Theorem request_sent_iff_encodable (e : env) (t : submission) :
  on_connect e = Ok tt ->
  (rw_encodable t = true ->
   exists rest,
     rw_events e t =
     EvSocket :: EvConnect
       :: EvSend (frame12 (thread_ident e mod 65535) (s_unit_id t) (s_function_code t)
                    (s_protocol_address t) (last_field t))
       :: rest) /\
  (rw_encodable t = false ->
   forall tr rs,
     ReadWrite.run_task e t (fresh tr rs) =
     (Ok tt, mkW SockOpen (tr ++ [EvSocket; EvConnect]) rs)).
Proof.
  intros Hc. split.
  - intros He. apply rw_events_when_built; [assumption|].
    apply rw_request_of_iff; [apply trans_id_fits | auto].
  - intros He tr rs.
    destruct (ReadWrite.request_of (thread_ident e mod 65535) (s_unit_id t)
                (s_function_code t) (s_protocol_address t) (s_operation t) (s_value t))
      as [request|x] eqn:B.
    + apply rw_request_of_iff in B as [B _]; [congruence | apply trans_id_fits].
    + unfold_worker. rewrite Hc. simpl. rewrite B. simpl.
      now rewrite (rw_request_raises _ _ _ _ _ _ _ B), <- app_assoc.
Qed.

Lemma request_sent_iff_encodable_witness :
  on_connect (answering 1 []) = Ok tt /\
  rw_encodable (mkSub 300 3 0 40001 hr read None) = false /\
  ReadWrite.run_task (answering 1 []) (mkSub 300 3 0 40001 hr read None) (fresh [] []) =
  (Ok tt, mkW SockOpen [EvSocket; EvConnect] []).
Proof.
  split; [reflexivity|]. split; [reflexivity|].
  exact (proj2 (request_sent_iff_encodable (answering 1 [])
                  (mkSub 300 3 0 40001 hr read None) eq_refl) eq_refl [] []).
Defined.

(** ** The command-line parsers *)

Lemma split_no_separator (sep : ascii) (s : string) :
  Cli.contains sep s = false -> Cli.split sep s = [s].
Proof.
  induction s as [|c s IH]; simpl; [reflexivity|].
  destruct (Ascii.eqb c sep); simpl; [discriminate|].
  intros H. now rewrite (IH H).
Qed.

Lemma split_with_separator (sep : ascii) (s : string) :
  Cli.contains sep s = true -> (2 <= List.length (Cli.split sep s))%nat.
Proof.
  induction s as [|c s IH]; simpl; [discriminate|].
  destruct (Ascii.eqb c sep); simpl.
  - intros _. destruct s; simpl.
    + lia.
    + destruct (Ascii.eqb _ sep); simpl; [lia|]. destruct (Cli.split sep s); simpl; lia.
  - intros H. specialize (IH H).
    destruct (Cli.split sep s) as [|hd tl]; simpl in *; lia.
Qed.

Lemma range_incl_length (a b : Z) : List.length (range_incl a b) = Z.to_nat (b + 1 - a).
Proof. unfold range_incl. now rewrite length_map, length_seq. Qed.

Lemma range_incl_nonempty (a b : Z) : a <= b -> range_incl a b <> [].
Proof.
  intros H E. apply (f_equal (@List.length Z)) in E.
  rewrite range_incl_length in E. simpl in E. lia.
Qed.

Lemma range_incl_reversed (a b : Z) : b < a -> range_incl a b = [].
Proof.
  intros H. unfold range_incl. replace (Z.to_nat (b + 1 - a)) with 0%nat by lia. reflexivity.
Qed.

Section Parsers.

Variable int : string -> option Z.
Variable strip : string -> string.

Lemma unpack_two_ints_inv (pieces : list string) (a b : Z) :
  Cli.unpack_two_ints int pieces = Some (a, b) ->
  exists x y, pieces = [x; y] /\ int x = Some a /\ int y = Some b.
Proof.
  unfold Cli.unpack_two_ints.
  destruct pieces as [|x [|y [|z rest]]]; try discriminate.
  destruct (int x) as [a'|] eqn:Ex, (int y) as [b'|] eqn:Ey; try discriminate.
  intros [= <- <-]. eauto.
Qed.

(** Every part that parses stands for a non-empty ascending run. *)
Lemma part_addresses_run (part : string) (run : list Z) :
  Cli.part_addresses int strip part = Some run ->
  exists start end_, start <= end_ /\ run = range_incl start end_.
Proof.
  unfold Cli.part_addresses.
  destruct (Cli.contains Cli.dash (strip part)).
  - destruct (Cli.unpack_two_ints int (Cli.split Cli.dash (strip part))) as [[s e]|];
      [|discriminate].
    destruct (Z.gtb_spec s e) as [Hgt|Hle]; [discriminate|].
    intros [= <-]. eauto.
  - destruct (int (strip part)) as [n|]; [|discriminate].
    intros [= <-]. exists n, n. rewrite range_incl_single. split; [lia | reflexivity].
Qed.

Lemma parse_parts_inv (parts : list string) :
  forall acc addresses,
    Cli.parse_parts int strip parts acc = Some addresses ->
    exists runs,
      addresses = acc ++ List.concat runs /\
      Forall2 (fun part run => Cli.part_addresses int strip part = Some run) parts runs.
Proof.
  induction parts as [|part rest IH]; intros acc addresses H; simpl in H.
  - injection H as <-. exists []. simpl. now rewrite app_nil_r.
  - destruct (Cli.part_addresses int strip part) as [l|] eqn:E; [|discriminate].
    apply IH in H as (runs & -> & Hf).
    exists (l :: runs). simpl. rewrite <- app_assoc. auto.
Qed.

Lemma parse_parts_ok (parts : list string) (runs : list (list Z)) :
  Forall2 (fun part run => Cli.part_addresses int strip part = Some run) parts runs ->
  forall acc, Cli.parse_parts int strip parts acc = Some (acc ++ List.concat runs).
Proof.
  induction 1 as [|part run parts runs Hp _ IH]; intros acc; simpl.
  - now rewrite app_nil_r.
  - rewrite Hp, IH. now rewrite <- app_assoc.
Qed.

End Parsers.

(** X11.  [parse_address_range] of the read/write tool returns a list exactly
    when every comma-separated part parses, and the list is then the runs of
    the parts one after the other, in order and with repetitions kept; each
    run is a non-empty ascending range (a single number, or start to end with
    start <= end), so the list is never empty and has at least as many
    addresses as there are parts. *)
Theorem rw_parse_address_range_runs
  (int : string -> option Z) (strip : string -> string)
  (arg_value : string) (addresses : list Z) :
  Cli.rw_parse_address_range int strip arg_value = Cli.Parsed addresses <->
  exists runs,
    addresses = List.concat runs /\
    Forall2
      (fun part run =>
         Cli.part_addresses int strip part = Some run /\
         exists start end_, start <= end_ /\ run = range_incl start end_)
      (Cli.split Cli.comma arg_value) runs /\
    addresses <> [] /\
    (List.length (Cli.split Cli.comma arg_value) <= List.length addresses)%nat.
Proof.
  unfold Cli.rw_parse_address_range. split.
  - destruct (Cli.parse_parts int strip (Cli.split Cli.comma arg_value) []) as [l|] eqn:E;
      [|discriminate].
    intros [= <-]. apply parse_parts_inv in E as (runs & -> & Hf). simpl.
    exists runs. split; [reflexivity|].
    assert (Hf' : Forall2
              (fun part run =>
                 Cli.part_addresses int strip part = Some run /\
                 exists start end_, start <= end_ /\ run = range_incl start end_)
              (Cli.split Cli.comma arg_value) runs).
    { eapply Forall2_impl; [|exact Hf]. intros part run Hp. split; [assumption|].
      now apply (part_addresses_run int strip part). }
    split; [assumption|].
    assert (Hlen : (List.length (Cli.split Cli.comma arg_value)
                    <= List.length (List.concat runs))%nat).
    { clear Hf. induction Hf' as [|part run parts rs (_ & s & e & Hse & ->) _ IH]; simpl.
      - lia.
      - rewrite length_app, range_incl_length. lia. }
    split; [|assumption].
    intros Hnil. rewrite Hnil in Hlen. simpl in Hlen.
    destruct arg_value as [|c rest]; simpl in Hlen; [lia|].
    destruct (Ascii.eqb c Cli.comma); simpl in Hlen; [lia|].
    destruct (Cli.split Cli.comma rest); simpl in Hlen; lia.
  - intros (runs & -> & Hf & _).
    rewrite (parse_parts_ok int strip _ runs); [reflexivity|].
    eapply Forall2_impl; [|exact Hf]. intros part run [Hp _]. exact Hp.
Qed.

(** X12.  [parse_address_range] of the enumeration tool returns a pair only with
    start <= end, so the range it stands for is never empty: it has
    end - start + 1 addresses; an argument without a dash stands for one
    address, an argument with one for the two integers around a single dash.
    Every other argument is an [ArgumentTypeError]. *)
Theorem enum_parse_address_range_ordered
  (int : string -> option Z) (arg_value : string) (start end_ : Z) :
  Cli.enum_parse_address_range int arg_value = Cli.Parsed (start, end_) ->
  start <= end_ /\
  range_incl start end_ <> [] /\
  List.length (range_incl start end_) = Z.to_nat (end_ - start + 1) /\
  (Cli.contains Cli.dash arg_value = false -> int arg_value = Some start /\ end_ = start) /\
  (Cli.contains Cli.dash arg_value = true ->
   exists x y,
     Cli.split Cli.dash arg_value = [x; y] /\ int x = Some start /\ int y = Some end_).
Proof.
  unfold Cli.enum_parse_address_range. intros H.
  destruct (Cli.contains Cli.dash arg_value) eqn:Ec.
  - destruct (Cli.unpack_two_ints int (Cli.split Cli.dash arg_value)) as [[s e]|] eqn:Eu;
      [|discriminate].
    destruct (Z.gtb_spec s e) as [Hgt|Hle]; [discriminate|].
    injection H as -> ->.
    split; [assumption|]. split; [now apply range_incl_nonempty|].
    split; [rewrite range_incl_length; f_equal; lia|].
    split; [discriminate|]. intros _. now apply unpack_two_ints_inv.
  - destruct (int arg_value) as [n|] eqn:Ei; [|discriminate].
    destruct (Z.gtb_spec n n) as [Hgt|Hle]; [discriminate|].
    injection H as -> ->.
    split; [lia|]. split; [apply range_incl_nonempty; lia|].
    split; [rewrite range_incl_length; f_equal; lia|].
    split; [auto | discriminate].
Qed.

(** X13.  The slave-id parsing has no check of its own: a range written
    backwards, which [parse_address_range] rejects, gives the empty list of
    slaves without any error, and the enumeration tool then prints its
    closing line and makes no socket call. *)
Theorem reversed_slave_range_runs_nothing
  (int : string -> option Z) (slaveids x y : string) (a b : Z) :
  Cli.split Cli.dash slaveids = [x; y] ->
  int x = Some a -> int y = Some b -> b < a ->
  Cli.parse_slave_ids int slaveids = Ok [] /\
  (exists msg, Cli.enum_parse_address_range int slaveids = Cli.ArgumentTypeError msg) /\
  (forall net sched ip port hr_range coil_range ir_range di_range,
     Enum.main net sched (Enum.mkArgs ip port [] hr_range coil_range ir_range di_range) =
     (Ok tt, mkWorld [(nl ++ "Done.")%string] [])).
Proof.
  intros Hs Hx Hy Hlt.
  assert (Hc : Cli.contains Cli.dash slaveids = true).
  { destruct (Cli.contains Cli.dash slaveids) eqn:E; [reflexivity|].
    apply split_no_separator in E. rewrite Hs in E. discriminate. }
  assert (Hu : Cli.unpack_two_ints int (Cli.split Cli.dash slaveids) = Some (a, b)).
  { rewrite Hs. simpl. now rewrite Hx, Hy. }
  split; [|split].
  - unfold Cli.parse_slave_ids. rewrite Hc, Hu. now rewrite range_incl_reversed.
  - unfold Cli.enum_parse_address_range. rewrite Hc, Hu.
    assert (Hg : (a >? b) = true) by (apply Z.gtb_lt; lia).
    rewrite Hg. eauto.
  - reflexivity.
Qed.

Example rw_parse_address_range_runs_on :
  Cli.rw_parse_address_range Cli.decimal (fun s => s) "40001-40003,7,7" =
    Cli.Parsed [40001; 40002; 40003; 7; 7] /\
  Cli.rw_parse_address_range Cli.decimal (fun s => s) "1,5-3" =
    Cli.ArgumentTypeError "Invalid address range '1,5-3'." /\
  Cli.rw_parse_address_range Cli.decimal (fun s => s) "1-2-3" =
    Cli.ArgumentTypeError "Invalid address range '1-2-3'." /\
  Cli.rw_parse_address_range Cli.decimal (fun s => s) "" =
    Cli.ArgumentTypeError "Invalid address range ''.".
Proof. repeat split. Qed.

Lemma enum_parse_address_range_ordered_witness :
  Cli.enum_parse_address_range Cli.decimal "30001-30010" = Cli.Parsed (30001, 30010) /\
  30001 <= 30010 /\
  List.length (range_incl 30001 30010) = Z.to_nat (30010 - 30001 + 1).
Proof.
  split; [reflexivity|].
  pose proof (enum_parse_address_range_ordered Cli.decimal "30001-30010" 30001 30010 eq_refl)
    as (Hle & _ & Hlen & _).
  exact (conj Hle Hlen).
Defined.

Lemma reversed_slave_range_runs_nothing_witness :
  Cli.split Cli.dash "5-1" = ["5"%string; "1"%string] /\
  Cli.parse_slave_ids Cli.decimal "5-1" = Ok [] /\
  exists msg, Cli.enum_parse_address_range Cli.decimal "5-1" = Cli.ArgumentTypeError msg.
Proof.
  split; [reflexivity|].
  pose proof (reversed_slave_range_runs_nothing Cli.decimal "5-1" "5" "1" 5 1
                eq_refl eq_refl eq_refl eq_refl) as (Hp & He & _).
  exact (conj Hp He).
Defined.

(** The slave-id parsing otherwise: an ascending range gives its
    end - start + 1 slaves; without a dash every comma-separated item must be
    an integer, else the [ValueError] escapes. *)
Example parse_slave_ids_on :
  Cli.parse_slave_ids Cli.decimal "1-5" = Ok [1; 2; 3; 4; 5] /\
  Cli.parse_slave_ids Cli.decimal "1,3,5" = Ok [1; 3; 5] /\
  Cli.parse_slave_ids Cli.decimal "1-3,5" = Raise ValueError /\
  Cli.parse_slave_ids Cli.decimal "1,,5" = Raise ValueError.
Proof. repeat split. Qed.

(** ** What a write reports *)

(** X14.  A write is reported by what the response decodes to and nothing else:
    when the exchange reaches the decoder, the worker appends "Wrote to" if
    the decoded payload is non-empty and "Failed to write to" otherwise.  The
    echo is not compared with the request: every response of function code 5
    or 6 with at least one byte after the header is a success, whatever
    transaction id, unit id, address and value it carries. *)
Theorem write_reported_on_any_echo
  (e : env) (u fc pa la : Z) (dt : data_type) (value : option Z)
  (request response : bytes) (tr : list event) (rs : list string) :
  on_connect e = Ok tt -> on_sendall e = Ok tt -> on_recv e = Ok response ->
  ReadWrite.request_of (thread_ident e mod 65535) u fc pa write value = Ok request ->
  (forall data,
     ReadWrite.parse_modbus_response response = Ok data ->
     ReadWrite.read_or_write_data e u fc pa la dt write value (fresh tr rs) =
     (Ok tt,
      mkW SockClosed (tr ++ [EvSocket; EvConnect; EvSend request; EvRecv; EvClose])
        (rs ++ [if truthy data then ReadWrite.wrote_line u dt la
                else ReadWrite.failed_write_line u dt la]))) /\
  (forall a1 a0 b1 b0 c1 c0 d f b more,
     response = a1 :: a0 :: b1 :: b0 :: c1 :: c0 :: d :: f :: b :: more ->
     mem (byte_val f) [5; 6] = true ->
     ReadWrite.read_or_write_data e u fc pa la dt write value (fresh tr rs) =
     (Ok tt,
      mkW SockClosed (tr ++ [EvSocket; EvConnect; EvSend request; EvRecv; EvClose])
        (rs ++ [ReadWrite.wrote_line u dt la]))).
Proof.
  intros Hc Hs Hr Hb.
  assert (Hgen : forall data,
            ReadWrite.parse_modbus_response response = Ok data ->
            ReadWrite.read_or_write_data e u fc pa la dt write value (fresh tr rs) =
            (Ok tt,
             mkW SockClosed (tr ++ [EvSocket; EvConnect; EvSend request; EvRecv; EvClose])
               (rs ++ [if truthy data then ReadWrite.wrote_line u dt la
                       else ReadWrite.failed_write_line u dt la]))).
  { intros data Hp.
    rewrite (rw_reaches_report e u fc pa la dt write value request response data tr rs)
      by assumption.
    unfold try_except_pass, ReadWrite.report. destruct (truthy data); reflexivity. }
  split; [exact Hgen|].
  intros a1 a0 b1 b0 c1 c0 d f b more -> Hf.
  assert (H14 : mem (byte_val f) [1; 2; 3; 4] = false).
  { apply not_mem. apply mem_spec in Hf. simpl in *. lia. }
  assert (H128 : (128 <=? byte_val f) = false).
  { apply Z.leb_gt. apply mem_spec in Hf. simpl in Hf. lia. }
  rewrite (Hgen (Some (firstn 4 (b :: more)))).
  - reflexivity.
  - now rewrite rw_parse_long, H128, H14, Hf.
Qed.

Lemma write_reported_on_any_echo_witness :
  ReadWrite.request_of (1 mod 65535) 1 5 0 write (Some 65280) =
    Ok (of_ints [0; 1; 0; 0; 0; 6; 1; 5; 0; 0; 255; 0]) /\
  ReadWrite.read_or_write_data (answering 1 (of_ints [9; 9; 0; 0; 0; 6; 7; 6; 0; 9; 0; 0]))
    1 5 0 1 coil write (Some 65280) (fresh [] []) =
  (Ok tt,
   mkW SockClosed
     [EvSocket; EvConnect; EvSend (of_ints [0; 1; 0; 0; 0; 6; 1; 5; 0; 0; 255; 0]);
      EvRecv; EvClose]
     [ReadWrite.wrote_line 1 coil 1]).
Proof.
  split; [reflexivity|].
  exact (proj2
    (write_reported_on_any_echo
       (answering 1 (of_ints [9; 9; 0; 0; 0; 6; 7; 6; 0; 9; 0; 0])) 1 5 0 1 coil (Some 65280)
       (of_ints [0; 1; 0; 0; 0; 6; 1; 5; 0; 0; 255; 0])
       (of_ints [9; 9; 0; 0; 0; 6; 7; 6; 0; 9; 0; 0]) [] []
       eq_refl eq_refl eq_refl eq_refl)
    (mk_byte 9) (mk_byte 9) (mk_byte 0) (mk_byte 0) (mk_byte 0) (mk_byte 6) (mk_byte 7)
    (mk_byte 6) (mk_byte 0) (of_ints [9; 0; 0]) eq_refl eq_refl).
Defined.

(** ** The thread pool *)

Lemma select_position (q : list (list action)) :
  forall room p a q',
    select room p q = Some (a, q') ->
    exists before steps after,
      q = before ++ (a :: steps) :: after /\ q' = before ++ steps :: after.
Proof.
  induction q as [|[|b st] rest IH]; intros room p a q' H; simpl in H.
  - discriminate.
  - destruct (select room p rest) as [[a0 q0]|] eqn:E; [|discriminate].
    injection H as <- <-. simpl.
    destruct (IH _ _ _ _ E) as (before & steps & after & -> & ->).
    exists ([] :: before), steps, after. auto.
  - destruct room as [|room]; [discriminate|].
    destruct p as [|p].
    + injection H as <- <-. exists [], st, rest. auto.
    + destruct (select room p rest) as [[a0 q0]|] eqn:E; [|discriminate].
      injection H as <- <-. simpl.
      destruct (IH _ _ _ _ E) as (before & steps & after & -> & ->).
      exists ((b :: st) :: before), steps, after. auto.
Qed.

Lemma select_first (room : nat) (q : list (list action)) :
  List.concat q <> [] -> exists r, select (S room) 0 q = Some r.
Proof.
  induction q as [|[|b st] rest IH]; intros H; simpl in *.
  - contradiction.
  - destruct (IH H) as [r Hr]. rewrite Hr. eauto.
  - eauto.
Qed.

Lemma concat_step_length (before after : list (list action)) (a : action)
  (steps : list action) :
  List.length (List.concat (before ++ (a :: steps) :: after)) =
  S (List.length (List.concat (before ++ steps :: after))).
Proof.
  rewrite !concat_app. simpl. rewrite !length_app. simpl. rewrite !length_app. lia.
Qed.

(** Whatever the picks, the pool produces an interleaving of the tasks'
    steps: every step of every task once, each task's steps in its own
    order. *)
Lemma interleave_is_interleaving (fuel : nat) :
  forall picks q,
    List.length (List.concat q) = fuel -> interleaving q (interleave fuel picks q).
Proof.
  induction fuel as [|n IH]; intros picks q Hl; simpl.
  - apply interleaving_done. now apply length_zero_iff_nil.
  - assert (Hne : List.concat q <> []) by (intros E; rewrite E in Hl; discriminate).
    assert (Hstep : forall a q',
              select max_workers (hd 0%nat picks) q = Some (a, q') \/
              select max_workers 0 q = Some (a, q') ->
              interleaving q (a :: interleave n (tl picks) q')).
    { intros a q' [H | H];
        apply select_position in H as (before & steps & after & -> & ->);
        apply interleaving_step, IH;
        rewrite concat_step_length in Hl; lia. }
    destruct (select max_workers (hd 0%nat picks) q) as [[a q']|] eqn:E.
    + apply Hstep. auto.
    + destruct (select_first 99 q Hne) as [[a q'] Hr].
      change (select (S 99) 0 q) with (select max_workers 0 q) in Hr.
      rewrite Hr. apply Hstep. auto.
Qed.

Lemma run_pool_interleaving (picks : list nat) (q : list (list action)) :
  interleaving q (run_pool picks q).
Proof. unfold run_pool. now apply interleave_is_interleaving. Qed.

Lemma interleaving_permutation (q : list (list action)) (acts : list action) :
  interleaving q acts -> Permutation acts (List.concat q).
Proof.
  induction 1 as [q Hq | before after a steps acts _ IH].
  - rewrite Hq. constructor.
  - rewrite concat_app in *. simpl in *. now apply Permutation_cons_app.
Qed.

Lemma pool_lines_steps (evs : list event) (ls : list string) :
  pool_lines (map Call evs ++ map Append ls) = ls /\
  pool_events (map Call evs ++ map Append ls) = evs.
Proof.
  unfold pool_lines, pool_events. rewrite !flat_map_app. split.
  - induction evs as [|ev evs IH]; simpl; [|exact IH].
    induction ls as [|l ls IH]; simpl; [reflexivity | now rewrite IH].
  - induction evs as [|ev evs IH]; simpl; [|now rewrite IH].
    induction ls as [|l ls IH]; simpl; [reflexivity | exact IH].
Qed.

Lemma rw_own_steps (net : nat -> nat -> env) (i : nat) (tasks : list submission) :
  forall k,
    pool_lines (List.concat (mapi (fun j t => ReadWrite.steps (net i j) t) k tasks)) =
      List.concat (mapi (fun j t => rw_lines (net i j) t) k tasks) /\
    pool_events (List.concat (mapi (fun j t => ReadWrite.steps (net i j) t) k tasks)) =
      List.concat (mapi (fun j t => rw_events (net i j) t) k tasks).
Proof.
  induction tasks as [|t rest IH]; intros k; simpl; [auto|].
  destruct (IH (S k)) as [Hl He].
  unfold pool_lines, pool_events in *. rewrite !flat_map_app, Hl, He.
  destruct (pool_lines_steps (rw_events (net i k) t) (rw_lines (net i k) t)) as [Hl' He'].
  unfold pool_lines, pool_events in *.
  unfold ReadWrite.steps. fold (rw_events (net i k) t). fold (rw_lines (net i k) t).
  now rewrite Hl', He'.
Qed.

Lemma enum_own_steps (net : nat -> nat -> env) (i : nat) (tasks : list submission) :
  forall k,
    pool_lines (List.concat (mapi (fun j t => Enum.steps (net i j) t) k tasks)) =
      List.concat (mapi (fun j t => enum_lines (net i j) t) k tasks) /\
    pool_events (List.concat (mapi (fun j t => Enum.steps (net i j) t) k tasks)) =
      List.concat (mapi (fun j t => enum_events (net i j) t) k tasks).
Proof.
  induction tasks as [|t rest IH]; intros k; simpl; [auto|].
  destruct (IH (S k)) as [Hl He].
  unfold pool_lines, pool_events in *. rewrite !flat_map_app, Hl, He.
  destruct (pool_lines_steps (enum_events (net i k) t) (enum_lines (net i k) t)) as [Hl' He'].
  unfold pool_lines, pool_events in *.
  unfold Enum.steps. fold (enum_events (net i k) t). fold (enum_lines (net i k) t).
  now rewrite Hl', He'.
Qed.

(** The lines a slave's pool leaves are the lines of its tasks, each once,
    in some order; so are its socket calls. *)
Lemma rw_pool_permutation (net : nat -> nat -> env) (sched : nat -> list nat) (i : nat)
  (tasks : list submission) :
  Permutation (pool_lines (rw_pool net sched i tasks)) (rw_own_lines net i tasks) /\
  Permutation (pool_events (rw_pool net sched i tasks)) (rw_own_events net i tasks).
Proof.
  unfold rw_own_lines, rw_own_events.
  destruct (rw_own_steps net i tasks 0) as [Hl He]. rewrite <- Hl, <- He.
  pose proof (interleaving_permutation _ _
                (run_pool_interleaving (sched i)
                   (mapi (fun j t => ReadWrite.steps (net i j) t) 0 tasks))) as Hp.
  split; apply Permutation_flat_map; exact Hp.
Qed.

Lemma enum_pool_permutation (net : nat -> nat -> env) (sched : nat -> list nat) (i : nat)
  (tasks : list submission) :
  Permutation (pool_lines (enum_pool net sched i tasks)) (enum_own_lines net i tasks) /\
  Permutation (pool_events (enum_pool net sched i tasks)) (enum_own_events net i tasks).
Proof.
  unfold enum_own_lines, enum_own_events.
  destruct (enum_own_steps net i tasks 0) as [Hl He]. rewrite <- Hl, <- He.
  pose proof (interleaving_permutation _ _
                (run_pool_interleaving (sched i)
                   (mapi (fun j t => Enum.steps (net i j) t) 0 tasks))) as Hp.
  split; apply Permutation_flat_map; exact Hp.
Qed.

Lemma first_raise_mapi {A : Type} (f : nat -> A -> res unit) (l : list A) :
  (forall j a, f j a = Ok tt) -> forall k, first_raise (mapi f k l) = None.
Proof.
  intros H. induction l as [|a l IH]; intros k; simpl; [reflexivity|].
  rewrite H. apply IH.
Qed.

Lemma rw_submit_types_read (unit_id : Z) (values data_types : dict (list Z)) :
  ReadWrite.submit_types false unit_id values data_types =
  Ok ([], rw_read_tasks unit_id data_types).
Proof.
  unfold rw_read_tasks.
  induction data_types as [|[dt addresses] rest IH]; simpl; [reflexivity|].
  destruct dt; simpl; rewrite rw_submit_addresses_read; simpl; rewrite IH; reflexivity.
Qed.

Lemma rw_submit_types_write (unit_id : Z) (values data_types : dict (list Z)) :
  (forall dt addresses,
     In (dt, addresses) data_types ->
     exists vs, lookup values dt = Ok vs /\ List.length vs = List.length addresses) ->
  ReadWrite.submit_types true unit_id values data_types =
  Ok (rw_write_notices data_types, rw_write_tasks unit_id values data_types).
Proof.
  unfold rw_write_notices, rw_write_tasks.
  induction data_types as [|[dt addresses] rest IH]; intros Hl; [reflexivity|].
  assert (IH' := IH (fun d a H => Hl d a (or_intror H))). clear IH.
  destruct (Hl dt addresses (or_introl eq_refl)) as (vs & Hv & Hn).
  cbn [ReadWrite.submit_types flat_map fst snd].
  destruct dt; cbn [ReadWrite.type_codes Spec.write_code Spec.base_address];
    rewrite ?Hv, IH'; cbn [rbind fst snd app];
    try reflexivity;
    rewrite (rw_submit_addresses_write unit_id _ _ _ values vs Hv addresses 0)
      by (simpl; lia);
    reflexivity.
Qed.

Lemma enum_submit_types_eq (unit_id : Z) (data_types : dict (Z * Z)) :
  Enum.submit_types unit_id data_types = enum_tasks unit_id data_types.
Proof.
  unfold enum_tasks.
  induction data_types as [|[dt [start_address end_address]] rest IH]; simpl; [reflexivity|].
  rewrite <- IH. destruct dt; simpl; now rewrite enum_submit_addresses_eq.
Qed.

Section WellBehavedNetwork.

Variable net : nat -> nat -> env.
Variable sched : nat -> list nat.
Hypothesis net_ok : forall i j, well_behaved (net i j) = true.

Lemma rw_outcomes_ok (i : nat) (tasks : list submission) :
  first_raise (mapi (fun j t => ReadWrite.outcome (net i j) t) 0 tasks) = None.
Proof.
  apply first_raise_mapi. intros j t.
  apply (proj2 (proj2 (proj2 (rw_worker_shape (net i j) t)))), net_ok.
Qed.

Lemma enum_outcomes_ok (i : nat) (tasks : list submission) :
  first_raise (mapi (fun j t => Enum.outcome (net i j) t) 0 tasks) = None.
Proof.
  apply first_raise_mapi. intros j t.
  apply (proj2 (proj2 (proj2 (enum_worker_shape (net i j) t)))), net_ok.
Qed.

Lemma enum_slaves_loop_eq (a : Enum.args) (data_types : dict (Z * Z)) (slave_ids : list Z) :
  forall batch w,
    Enum.slaves_loop net sched a data_types slave_ids batch w =
    (Ok tt,
     mkWorld
       (stdout w ++
        List.concat
          (mapi (fun i u => Enum.connecting_line a u
                            :: pool_lines (enum_pool net sched i (enum_tasks u data_types)))
             batch slave_ids))
       (wire w ++
        List.concat
          (mapi (fun i u => pool_events (enum_pool net sched i (enum_tasks u data_types)))
             batch slave_ids))).
Proof.
  induction slave_ids as [|u rest IH]; intros batch [out wr]; simpl.
  - now rewrite !app_nil_r.
  - rewrite enum_submit_types_eq, enum_outcomes_ok, IH. simpl.
    unfold enum_pool. now rewrite <- !app_assoc.
Qed.

Lemma rw_slaves_loop_read_eq (a : ReadWrite.args) (values data_types : dict (list Z))
  (slave_ids : list Z) :
  ReadWrite.a_write a = false ->
  forall batch w,
    ReadWrite.slaves_loop net sched a values data_types slave_ids batch w =
    (Ok tt,
     mkWorld
       (stdout w ++
        List.concat
          (mapi (fun i u => ReadWrite.processing_line a u
                            :: pool_lines (rw_pool net sched i (rw_read_tasks u data_types)))
             batch slave_ids))
       (wire w ++
        List.concat
          (mapi (fun i u => pool_events (rw_pool net sched i (rw_read_tasks u data_types)))
             batch slave_ids))).
Proof.
  intros Hw. induction slave_ids as [|u rest IH]; intros batch [out wr]; simpl.
  - now rewrite !app_nil_r.
  - rewrite Hw, rw_submit_types_read, rw_outcomes_ok, IH. simpl.
    unfold rw_pool. now rewrite !app_nil_r, <- !app_assoc.
Qed.

Lemma rw_slaves_loop_write_eq (a : ReadWrite.args) (values data_types : dict (list Z))
  (slave_ids : list Z) :
  ReadWrite.a_write a = true ->
  (forall dt addresses,
     In (dt, addresses) data_types ->
     exists vs, lookup values dt = Ok vs /\ List.length vs = List.length addresses) ->
  forall batch w,
    ReadWrite.slaves_loop net sched a values data_types slave_ids batch w =
    (Ok tt,
     mkWorld
       (stdout w ++
        List.concat
          (mapi (fun i u => ReadWrite.processing_line a u
                            :: rw_write_notices data_types
                            ++ pool_lines
                                 (rw_pool net sched i (rw_write_tasks u values data_types)))
             batch slave_ids))
       (wire w ++
        List.concat
          (mapi (fun i u => pool_events
                              (rw_pool net sched i (rw_write_tasks u values data_types)))
             batch slave_ids))).
Proof.
  intros Hw Hl. induction slave_ids as [|u rest IH]; intros batch [out wr]; simpl.
  - now rewrite !app_nil_r.
  - rewrite Hw, (rw_submit_types_write u values data_types Hl), rw_outcomes_ok, IH. simpl.
    unfold rw_pool. now rewrite <- !app_assoc.
Qed.

End WellBehavedNetwork.

(** ** [main] on every network and under every schedule *)

(** X8.  On a network that raises nothing but subclasses of [Exception],
    [main] of the enumeration tool ends normally under every schedule of the
    pool.  It prints, slave after slave in the order given, the slave's
    heading, then the lines the slave's own tasks appended, in the order they
    completed, and at the end the closing line; no line and no socket call of
    a slave comes before the end of the slave before it.  The tasks of a
    slave are one read per address of each range at or above the base of its
    type; what the pool does with them is an interleaving of their steps, so
    the slave's lines and socket calls are those of its tasks, each once. *)
Theorem enum_main_completes (net : nat -> nat -> env) (sched : nat -> list nat)
  (a : Enum.args) :
  (forall i j, well_behaved (net i j) = true) ->
  Enum.main net sched a =
  (Ok tt,
   mkWorld
     (List.concat
        (mapi (fun i u =>
                 Enum.connecting_line a u
                 :: pool_lines (enum_pool net sched i (enum_tasks u (Enum.data_types_of a))))
           0 (Enum.a_slave_ids a))
      ++ [(nl ++ "Done.")%string])
     (List.concat
        (mapi (fun i u =>
                 pool_events (enum_pool net sched i (enum_tasks u (Enum.data_types_of a))))
           0 (Enum.a_slave_ids a)))) /\
  (forall i u,
     interleaving
       (mapi (fun j t => Enum.steps (net i j) t) 0 (enum_tasks u (Enum.data_types_of a)))
       (enum_pool net sched i (enum_tasks u (Enum.data_types_of a))) /\
     Permutation
       (pool_lines (enum_pool net sched i (enum_tasks u (Enum.data_types_of a))))
       (enum_own_lines net i (enum_tasks u (Enum.data_types_of a))) /\
     Permutation
       (pool_events (enum_pool net sched i (enum_tasks u (Enum.data_types_of a))))
       (enum_own_events net i (enum_tasks u (Enum.data_types_of a)))).
Proof.
  intros Hn. split.
  - unfold Enum.main. rewrite (enum_slaves_loop_eq net sched Hn). reflexivity.
  - intros i u. split; [apply run_pool_interleaving | apply enum_pool_permutation].
Qed.

Lemma enum_main_completes_witness :
  (forall i j : nat,
     well_behaved
       (answering 1 (of_ints [0; 1; 0; 0; 0; 4; 1; 1; 1; Z.of_nat j])) = true) /\
  Enum.main (fun _ j => answering 1 (of_ints [0; 1; 0; 0; 0; 4; 1; 1; 1; Z.of_nat j]))
    (fun _ => [1; 1; 1; 1; 1; 1]%nat)
    (Enum.mkArgs "10.0.0.1" 502 [7] None (Some (1, 2)) None None) =
  (Ok tt,
   mkWorld
     [(nl ++ "Connecting to Slave ID 7 at 10.0.0.1:502")%string;
      "Slave 7 - COIL[2]: 1"%string;
      "Slave 7 - COIL[1]: 0"%string;
      (nl ++ "Done.")%string]
     [EvSocket; EvConnect; EvSend (of_ints [0; 1; 0; 0; 0; 6; 7; 1; 0; 1; 0; 1]);
      EvRecv; EvClose;
      EvSocket; EvConnect; EvSend (of_ints [0; 1; 0; 0; 0; 6; 7; 1; 0; 0; 0; 1]);
      EvRecv; EvClose]).
Proof.
  assert (H : forall i j : nat,
            well_behaved
              (answering 1 (of_ints [0; 1; 0; 0; 0; 4; 1; 1; 1; Z.of_nat j])) = true)
    by (intros _ j; reflexivity).
  split; [exact H|].
  exact (proj1 (enum_main_completes
                  (fun _ j => answering 1 (of_ints [0; 1; 0; 0; 0; 4; 1; 1; 1; Z.of_nat j]))
                  (fun _ => [1; 1; 1; 1; 1; 1]%nat)
                  (Enum.mkArgs "10.0.0.1" 502 [7] None (Some (1, 2)) None None) H)).
Defined.

(** X9.  A read run of the read/write tool: with [--read] alone and at
    least one data type selected, on a network that raises nothing but
    subclasses of [Exception], [main] ends normally under every schedule of
    the pool, whatever [--value] holds.  For each slave in turn it submits
    one read task per selected address at or above its base, in the order
    hr, coil, ir, di, and prints the slave's heading, then the lines these
    tasks appended, in the order they completed; the closing line comes
    last.  The pool's run is an interleaving of the tasks' steps. *)
Theorem rw_main_read_run (net : nat -> nat -> env) (sched : nat -> list nat)
  (a : ReadWrite.args) :
  ReadWrite.a_read a = true ->
  ReadWrite.a_write a = false ->
  ReadWrite.data_types_of a <> [] ->
  (forall i j, well_behaved (net i j) = true) ->
  ReadWrite.main net sched a =
  (Ok tt,
   mkWorld
     (List.concat
        (mapi (fun i u =>
                 ReadWrite.processing_line a u
                 :: pool_lines
                      (rw_pool net sched i (rw_read_tasks u (ReadWrite.data_types_of a))))
           0 (ReadWrite.a_slave_ids a))
      ++ [(nl ++ "Done.")%string])
     (List.concat
        (mapi (fun i u =>
                 pool_events
                   (rw_pool net sched i (rw_read_tasks u (ReadWrite.data_types_of a))))
           0 (ReadWrite.a_slave_ids a)))) /\
  (forall i u,
     interleaving
       (mapi (fun j t => ReadWrite.steps (net i j) t) 0
          (rw_read_tasks u (ReadWrite.data_types_of a)))
       (rw_pool net sched i (rw_read_tasks u (ReadWrite.data_types_of a))) /\
     Permutation
       (pool_lines (rw_pool net sched i (rw_read_tasks u (ReadWrite.data_types_of a))))
       (rw_own_lines net i (rw_read_tasks u (ReadWrite.data_types_of a))) /\
     Permutation
       (pool_events (rw_pool net sched i (rw_read_tasks u (ReadWrite.data_types_of a))))
       (rw_own_events net i (rw_read_tasks u (ReadWrite.data_types_of a)))).
Proof.
  intros Hr Hw Hd Hn. split.
  - unfold ReadWrite.main. rewrite Hr, Hw. simpl.
    destruct (ReadWrite.data_types_of a) as [|d ds] eqn:E; [contradiction|].
    rewrite (rw_slaves_loop_read_eq net sched Hn a [] (d :: ds) (ReadWrite.a_slave_ids a) Hw).
    reflexivity.
  - intros i u. split; [apply run_pool_interleaving | apply rw_pool_permutation].
Qed.

Lemma rw_main_read_run_witness :
  ReadWrite.data_types_of (single_rw "10.0.0.1" 502 false 1 hr [40001; 40002] None) <> [] /\
  ReadWrite.main
    (fun _ j => answering 1 (of_ints [0; 1; 0; 0; 0; 5; 1; 3; 2; 0; 10 + Z.of_nat j]))
    (fun _ => [1; 1; 1; 1; 1; 1]%nat)
    (single_rw "10.0.0.1" 502 false 1 hr [40001; 40002] None) =
  (Ok tt,
   mkWorld
     [(nl ++ "Processing Slave ID 1 at 10.0.0.1:502")%string;
      "Slave 1 - HR[40002]: 11"%string;
      "Slave 1 - HR[40001]: 10"%string;
      (nl ++ "Done.")%string]
     [EvSocket; EvConnect; EvSend (of_ints [0; 1; 0; 0; 0; 6; 1; 3; 0; 1; 0; 1]);
      EvRecv; EvClose;
      EvSocket; EvConnect; EvSend (of_ints [0; 1; 0; 0; 0; 6; 1; 3; 0; 0; 0; 1]);
      EvRecv; EvClose]).
Proof.
  assert (Hd : ReadWrite.data_types_of
                 (single_rw "10.0.0.1" 502 false 1 hr [40001; 40002] None) <> [])
    by discriminate.
  split; [exact Hd|].
  exact (proj1 (rw_main_read_run
                  (fun _ j =>
                     answering 1 (of_ints [0; 1; 0; 0; 0; 5; 1; 3; 2; 0; 10 + Z.of_nat j]))
                  (fun _ => [1; 1; 1; 1; 1; 1]%nat)
                  (single_rw "10.0.0.1" 502 false 1 hr [40001; 40002] None)
                  eq_refl eq_refl Hd (fun _ _ => eq_refl))).
Defined.

(** The order of a slave's lines is the order in which its tasks complete:
    the same read of two holding registers prints 40001 first when the first
    task runs through first, 40002 first when the second does, and the socket
    calls of the two tasks can alternate. *)
Example completion_order_decides_print_order :
  stdout (snd (ReadWrite.main
                 (fun _ j =>
                    answering 1 (of_ints [0; 1; 0; 0; 0; 5; 1; 3; 2; 0; 10 + Z.of_nat j]))
                 (fun _ => [])
                 (single_rw "10.0.0.1" 502 false 1 hr [40001; 40002] None))) =
    [(nl ++ "Processing Slave ID 1 at 10.0.0.1:502")%string;
     "Slave 1 - HR[40001]: 10"%string;
     "Slave 1 - HR[40002]: 11"%string;
     (nl ++ "Done.")%string] /\
  stdout (snd (ReadWrite.main
                 (fun _ j =>
                    answering 1 (of_ints [0; 1; 0; 0; 0; 5; 1; 3; 2; 0; 10 + Z.of_nat j]))
                 (fun _ => [1; 1; 1; 1; 1; 1]%nat)
                 (single_rw "10.0.0.1" 502 false 1 hr [40001; 40002] None))) =
    [(nl ++ "Processing Slave ID 1 at 10.0.0.1:502")%string;
     "Slave 1 - HR[40002]: 11"%string;
     "Slave 1 - HR[40001]: 10"%string;
     (nl ++ "Done.")%string] /\
  wire (snd (ReadWrite.main
               (fun _ j =>
                  answering 1 (of_ints [0; 1; 0; 0; 0; 5; 1; 3; 2; 0; 10 + Z.of_nat j]))
               (fun _ => [0; 1; 0; 1; 0; 1; 0; 1; 0; 1; 1; 0]%nat)
               (single_rw "10.0.0.1" 502 false 1 hr [40001; 40002] None))) =
    [EvSocket; EvSocket; EvConnect; EvConnect;
     EvSend (of_ints [0; 1; 0; 0; 0; 6; 1; 3; 0; 0; 0; 1]);
     EvSend (of_ints [0; 1; 0; 0; 0; 6; 1; 3; 0; 1; 0; 1]);
     EvRecv; EvRecv; EvClose; EvClose].
Proof. vm_compute. repeat split. Qed.

(** X10.  A write run with valid values, on a network that raises nothing
    but subclasses of [Exception], ends normally under every schedule of the
    pool.  For each slave in turn [main] prints the heading, one notice per
    selected input-register or discrete-input type, then the lines the
    slave's tasks appended, in the order they completed; it submits one task
    per holding-register or coil address at or above its base, with the
    value at the address's own position in the validated list (an address
    below its base is skipped together with its value).  The pool's run is an
    interleaving of the tasks' steps. *)
Theorem rw_main_write_run (net : nat -> nat -> env) (sched : nat -> list nat)
  (a : ReadWrite.args) (value_list : list (option Z)) :
  ReadWrite.a_read a = false ->
  ReadWrite.a_write a = true ->
  ReadWrite.a_value a = Some value_list ->
  ReadWrite.data_types_of a <> [] ->
  Spec.values_valid (ReadWrite.data_types_of a) value_list = true ->
  (forall i j, well_behaved (net i j) = true) ->
  exists values,
    ReadWrite.validate true (ReadWrite.data_types_of a) (Some value_list) = Ok values /\
    map Some (List.concat (map snd values)) = value_list /\
    ReadWrite.main net sched a =
    (Ok tt,
     mkWorld
       (List.concat
          (mapi (fun i u =>
                   ReadWrite.processing_line a u
                   :: rw_write_notices (ReadWrite.data_types_of a)
                   ++ pool_lines
                        (rw_pool net sched i
                           (rw_write_tasks u values (ReadWrite.data_types_of a))))
             0 (ReadWrite.a_slave_ids a))
        ++ [(nl ++ "Done.")%string])
       (List.concat
          (mapi (fun i u =>
                   pool_events
                     (rw_pool net sched i
                        (rw_write_tasks u values (ReadWrite.data_types_of a))))
             0 (ReadWrite.a_slave_ids a)))) /\
    (forall i u,
       interleaving
         (mapi (fun j t => ReadWrite.steps (net i j) t) 0
            (rw_write_tasks u values (ReadWrite.data_types_of a)))
         (rw_pool net sched i (rw_write_tasks u values (ReadWrite.data_types_of a))) /\
       Permutation
         (pool_lines
            (rw_pool net sched i (rw_write_tasks u values (ReadWrite.data_types_of a))))
         (rw_own_lines net i (rw_write_tasks u values (ReadWrite.data_types_of a))) /\
       Permutation
         (pool_events
            (rw_pool net sched i (rw_write_tasks u values (ReadWrite.data_types_of a))))
         (rw_own_events net i (rw_write_tasks u values (ReadWrite.data_types_of a)))).
Proof.
  intros Hr Hw Hv Hd Hok Hn.
  destruct (validate_accepts _ _ Hok) as (values & Hval & Hfa & Hc).
  exists values. split; [assumption|]. split; [assumption|].
  assert (Hl : forall dt addresses,
            In (dt, addresses) (ReadWrite.data_types_of a) ->
            exists vs, lookup values dt = Ok vs /\ List.length vs = List.length addresses).
  { intros dt addresses Hin.
    destruct (lookup_accepted _ _ (NoDup_data_types_of a) Hfa dt addresses Hin)
      as (vs & H1 & H2 & _). eauto. }
  split.
  - unfold ReadWrite.main. rewrite Hr, Hw, Hv. cbn [negb andb].
    destruct (ReadWrite.data_types_of a) as [|d ds] eqn:E; [contradiction|].
    rewrite Hval.
    rewrite (rw_slaves_loop_write_eq net sched Hn a values (d :: ds)
               (ReadWrite.a_slave_ids a) Hw Hl).
    reflexivity.
  - intros i u. split; [apply run_pool_interleaving | apply rw_pool_permutation].
Qed.

(** A write of 7, 8, 9, 1 to holding registers 40000 and 40002, input
    register 30001 and coil 3, the coil task completing first: the value 7
    goes with the skipped address 40000, 8 is written to 40002, 9 is counted
    for the input register that is not written, and the coil line comes
    before the register line. *)
Example write_run_in_completion_order :
  ReadWrite.main
    (fun _ _ => answering 1 (of_ints [0; 1; 0; 0; 0; 6; 1; 6; 0; 1; 0; 8]))
    (fun _ => [1; 1; 1; 1; 1; 1]%nat)
    (ReadWrite.mkArgs "10.0.0.1" 502 false true [1] (Some [40000; 40002]) (Some [3])
       (Some [30001]) None (Some [Some 7; Some 8; Some 1; Some 9])) =
  (Ok tt,
   mkWorld
     [(nl ++ "Processing Slave ID 1 at 10.0.0.1:502")%string;
      "Cannot write to IR"%string;
      "Slave 1 - Wrote to COIL[3]"%string;
      "Slave 1 - Wrote to HR[40002]"%string;
      (nl ++ "Done.")%string]
     [EvSocket; EvConnect; EvSend (of_ints [0; 1; 0; 0; 0; 6; 1; 5; 0; 2; 255; 0]);
      EvRecv; EvClose;
      EvSocket; EvConnect; EvSend (of_ints [0; 1; 0; 0; 0; 6; 1; 6; 0; 1; 0; 8]);
      EvRecv; EvClose]).
Proof. vm_compute. reflexivity. Qed.

Lemma rw_main_write_run_witness :
  Spec.values_valid
    (ReadWrite.data_types_of
       (ReadWrite.mkArgs "10.0.0.1" 502 false true [1] (Some [40000; 40002]) (Some [3])
          (Some [30001]) None (Some [Some 7; Some 8; Some 1; Some 9])))
    [Some 7; Some 8; Some 1; Some 9] = true /\
  exists values,
    ReadWrite.validate true
      (ReadWrite.data_types_of
         (ReadWrite.mkArgs "10.0.0.1" 502 false true [1] (Some [40000; 40002]) (Some [3])
            (Some [30001]) None (Some [Some 7; Some 8; Some 1; Some 9])))
      (Some [Some 7; Some 8; Some 1; Some 9]) = Ok values /\
    map Some (List.concat (map snd values)) = [Some 7; Some 8; Some 1; Some 9].
Proof.
  split; [reflexivity|].
  destruct (rw_main_write_run
              (fun _ _ => answering 1 (of_ints [0; 1; 0; 0; 0; 6; 1; 6; 0; 1; 0; 8]))
              (fun _ => [1; 1; 1; 1; 1; 1]%nat)
              (ReadWrite.mkArgs "10.0.0.1" 502 false true [1] (Some [40000; 40002]) (Some [3])
                 (Some [30001]) None (Some [Some 7; Some 8; Some 1; Some 9]))
              [Some 7; Some 8; Some 1; Some 9]
              eq_refl eq_refl eq_refl
              ltac:(discriminate) eq_refl (fun _ _ => eq_refl))
    as (values & Hval & Hc & _).
  exists values. split; assumption.
Defined.
